(** * Celery signal handlers of [opentelemetry.ext.celery]

    A shallow embedding of [CeleryInstrumentor]
    (ext/opentelemetry-ext-celery/src/opentelemetry/ext/celery/__init__.py):
    the six signal handlers, written in a small state monad over the spans
    issued by the tracer, the table that associates a running task with its
    span, and the logger; and the connection of the handlers to Celery's
    signals. *)

From stdpp Require Import gmap strings list fin_maps.

Open Scope string_scope.
Open Scope list_scope.
Open Scope nat_scope.

(** ** Constants of the module *)

Definition _TASK_TAG_KEY : string := "celery.action".
Definition _TASK_APPLY_ASYNC : string := "apply_async".
Definition _TASK_RUN : string := "run".
Definition _TASK_RETRY_REASON_KEY : string := "celery.retry.reason".
Definition _TASK_REVOKED_REASON_KEY : string := "celery.revoked.reason".
Definition _TASK_REVOKED_TERMINATED_SIGNAL_KEY : string := "celery.terminated.signal".
Definition _TASK_NAME_KEY : string := "celery.task_name".
Definition _MESSAGE_ID_ATTRIBUTE_NAME : string := "messaging.message_id".

(** ** The tracing API, as the handlers use it

    A span is an object of the tracing library.  The handlers only ever call
    it; what is observable of a span is therefore its name, its kind and the
    calls that were made on it.  [span_calls] keeps them, most recent first. *)

Inductive SpanKind := INTERNAL | SERVER | CLIENT | PRODUCER | CONSUMER.

Inductive StatusCanonicalCode := OK | CANCELLED | UNKNOWN.

(** [Status(canonical_code=..., description=...)]; the description is
    [None] unless one is given. *)
Record Status := {
  canonical_code : StatusCanonicalCode;
  description : option string
}.

Inductive AttrValue :=
| VStr (s : string)
| VInt (z : Z).

Inductive SpanCall :=
| SetAttribute (key : string) (value : AttrValue)  (* span.set_attribute *)
| SetStatus (st : Status)                          (* span.set_status *)
| Activate                                         (* use_span: made current *)
| Deactivate                                       (* use_span: context left *)
| End.                                             (* span.end *)

Record Span := {
  span_name : string;
  span_kind : SpanKind;
  span_calls : list SpanCall
}.

#[global] Instance SpanKind_eq_dec : EqDecision SpanKind.
Proof. solve_decision. Defined.
#[global] Instance StatusCanonicalCode_eq_dec : EqDecision StatusCanonicalCode.
Proof. solve_decision. Defined.
#[global] Instance Status_eq_dec : EqDecision Status.
Proof. solve_decision. Defined.
#[global] Instance AttrValue_eq_dec : EqDecision AttrValue.
Proof. solve_decision. Defined.
#[global] Instance SpanCall_eq_dec : EqDecision SpanCall.
Proof. solve_decision. Defined.

Definition record_call (c : SpanCall) (sp : Span) : Span :=
  {| span_name := span_name sp;
     span_kind := span_kind sp;
     span_calls := c :: span_calls sp |}.

Definition is_end (c : SpanCall) : bool :=
  match c with End => true | _ => false end.

(** How often the span was ended. *)
Definition ends (calls : list SpanCall) : nat :=
  length (filter (λ c, is_end c = true) calls).

Definition end_count (sp : Span) : nat := ends (span_calls sp).

(** The value an attribute has: the last one written under the key. *)
Fixpoint attribute_in (key : string) (calls : list SpanCall) : option AttrValue :=
  match calls with
  | [] => None
  | SetAttribute k v :: rest =>
      if decide (k = key) then Some v else attribute_in key rest
  | _ :: rest => attribute_in key rest
  end.

Definition attribute (key : string) (sp : Span) : option AttrValue :=
  attribute_in key (span_calls sp).

(** The status of the span: the last one set, if any; and [span.end()]
    gives a span that has no status the status OK. *)
Fixpoint status_in (calls : list SpanCall) : option Status :=
  match calls with
  | [] => None
  | SetStatus st :: _ => Some st
  | End :: rest =>
      match status_in rest with
      | Some st => Some st
      | None => Some {| canonical_code := OK; description := None |}
      end
  | _ :: rest => status_in rest
  end.

Definition status (sp : Span) : option Status := status_in (span_calls sp).

(** The context manager that [tracer.use_span(span, end_on_exit)] returns:
    a generator that [__enter__] runs up to its [yield], where it stays
    until it is left.  The handlers keep it in the table from the moment it
    is entered and take it out when they have left it, so that an activation
    in the table is one that is entered and not left. *)
Record Activation := {
  act_span : nat;
  act_end_on_exit : bool
}.

#[global] Instance Activation_eq_dec : EqDecision Activation.
Proof. solve_decision. Defined.

(** ** Celery's objects, as the handlers read them *)

(** An exception class: its name and the names of the classes it inherits
    from, nearest first. *)
Record ExcClass := {
  cls_name : string;
  cls_bases : list string
}.

Record PyException := {
  exc_class : ExcClass
}.

(** [isinstance(exception, classes)]: the class of the exception, or one of
    the classes it inherits from, is one of [classes]. *)
Definition isinstance (e : PyException) (classes : list string) : bool :=
  existsb (λ c, bool_decide (c ∈ cls_name (exc_class e) :: cls_bases (exc_class e)))
          classes.

(** The [einfo] of a failure signal; [einfo_str] is [str(einfo)]. *)
Record ExceptionInfo := {
  exception : PyException;
  einfo_str : string
}.

(** The reason of a retry signal: an exception as a rule, but the handler
    takes [str(reason)] so that anything else is accepted too. *)
Inductive Reason :=
| ReasonException (e : PyException) (message : string)
| ReasonObject (repr : string).

Definition str_reason (r : Reason) : string :=
  match r with
  | ReasonException _ message => message
  | ReasonObject repr => repr
  end.

(** A Celery context: the plain entries of a signal's keyword arguments, or
    of [task.request]. *)
Definition Context := list (string * AttrValue).

(** A task object.  [task_ident] is the identity of the Python object;
    [throws] is [None] when the object has no such attribute. *)
Record Task := {
  task_ident : nat;
  name : string;
  throws : option (list string);
  request : Context
}.

(** The keyword arguments of a signal, by the entries the handlers look for.
    [kw_message_id] is the task id carried by the published message and
    [kw_request_id] the one of the [request] argument of a retry signal. *)
Record Kwargs := {
  kw_task : option Task;
  kw_task_id : option string;
  kw_sender : option Task;
  kw_message_id : option string;
  kw_request_id : option string;
  kw_reason : option Reason;
  kw_einfo : option ExceptionInfo;
  kw_fields : Context
}.

(** ** State and monad *)

Inductive LogRecord :=
| LogDebug (msg : string) (arg : string)
| LogWarning (msg : string) (arg : string)
| LogMissing (what : string).

(** The spans the tracer has issued (a span is referred to by its position),
    the table of attached spans, keyed by task identity, task id and
    direction, and what was logged, most recent first. *)
Record State := {
  spans : list Span;
  span_dict : gmap (nat * string * bool) (nat * Activation);
  log : list LogRecord
}.

Definition init : State :=
  {| spans := []; span_dict := ∅; log := [] |}.

(** A call returns a value or raises an exception, and changes the state. *)
Inductive Outcome (A : Type) :=
| Returned (x : A)
| Raised (e : PyException).

Arguments Returned {A} x.
Arguments Raised {A} e.

Definition M (A : Type) : Type := State → Outcome A * State.

#[global] Instance M_ret : MRet M := λ A x s, (Returned x, s).

(** An exception that is raised leaves the rest undone. *)
#[global] Instance M_bind : MBind M :=
  λ A B k m s,
    match m s with
    | (Returned x, s') => k x s'
    | (Raised e, s') => (Raised e, s')
    end.

(** A handler that returns returns [None]; what it does is its effect on the
    state. *)
Definition exec (m : M unit) (s : State) : State := snd (m s).

Definition logger_debug (msg arg : string) : M unit :=
  λ s, (Returned tt, {| spans := spans s; span_dict := span_dict s;
               log := LogDebug msg arg :: log s |}).

Definition logger_warning (msg arg : string) : M unit :=
  λ s, (Returned tt, {| spans := spans s; span_dict := span_dict s;
               log := LogWarning msg arg :: log s |}).

(** [tracer.start_span(name, kind=kind)]: a new span. *)
Definition start_span (nm : string) (kind : SpanKind) : M nat :=
  λ s, (Returned (length (spans s)),
        {| spans := spans s ++ [ {| span_name := nm; span_kind := kind;
                                    span_calls := [] |} ];
           span_dict := span_dict s;
           log := log s |}).

(** A call on the span object [sp]. *)
Definition span_call (sp : nat) (c : SpanCall) : M unit :=
  λ s, (Returned tt, {| spans := alter (record_call c) sp (spans s);
               span_dict := span_dict s;
               log := log s |}).

Definition set_attribute (sp : nat) (key : string) (value : AttrValue) : M unit :=
  span_call sp (SetAttribute key value).

Definition set_status (sp : nat) (st : Status) : M unit :=
  span_call sp (SetStatus st).

Definition use_span (sp : nat) (end_on_exit : bool) : M Activation :=
  mret {| act_span := sp; act_end_on_exit := end_on_exit |}.

(** [activation.__enter__()]: the span becomes the current one. *)
Definition __enter__ (a : Activation) : M unit :=
  span_call (act_span a) Activate.

(** [activation.__exit__(None, None, None)]: the context is left, and the
    span is ended when the activation was made with [end_on_exit]. *)
Definition __exit__ (a : Activation) : M unit :=
  span_call (act_span a) Deactivate ;;
  if act_end_on_exit a then span_call (act_span a) End else mret tt.

(** What becomes of an activation that is entered and not left when the last
    reference to it goes away: Python closes the generator, which runs its
    [finally] clauses, so that the context is left and the span is ended when
    the activation was made with [end_on_exit]. *)
Definition finalize (a : Activation) : M unit :=
  span_call (act_span a) Deactivate ;;
  if act_end_on_exit a then span_call (act_span a) End else mret tt.

(** ** The helpers of [opentelemetry.ext.celery.utils] *)

Definition logger_missing (what : string) : M unit :=
  λ s, (Returned tt, {| spans := spans s; span_dict := span_dict s;
               log := LogMissing what :: log s |}).

(** Modelled from the spec: the [utils.signal_retrieve_*] functions are
    missing from the sources.  Each reads one correlating identifier from
    the keyword arguments of the signal; when the identifier is absent this is
    logged and [None] is returned. *)
Definition signal_retrieve {A} (what : string) (field : option A) : M (option A) :=
  match field with
  | Some x => mret (Some x)
  | None => logger_missing what ;; mret None
  end.

(** Modelled from the spec: [utils.signal_retrieve_task] is missing from the
    sources; the task of a prerun or postrun signal. *)
Definition signal_retrieve_task (kwargs : Kwargs) : M (option Task) :=
  signal_retrieve "task" (kw_task kwargs).

(** Modelled from the spec: [utils.signal_retrieve_task_id] is missing from
    the sources; the task id of a prerun, postrun or failure signal. *)
Definition signal_retrieve_task_id (kwargs : Kwargs) : M (option string) :=
  signal_retrieve "task_id" (kw_task_id kwargs).

(** Modelled from the spec: [utils.signal_retrieve_task_from_sender] is
    missing from the sources; the task that sends the signal. *)
Definition signal_retrieve_task_from_sender (kwargs : Kwargs) : M (option Task) :=
  signal_retrieve "sender" (kw_sender kwargs).

(** Modelled from the spec: [utils.signal_retrieve_task_id_from_message] is
    missing from the sources; the task id in the published message. *)
Definition signal_retrieve_task_id_from_message (kwargs : Kwargs) : M (option string) :=
  signal_retrieve "message id" (kw_message_id kwargs).

(** Modelled from the spec: [utils.signal_retrieve_task_id_from_request] is
    missing from the sources; the task id in the request of a retry signal. *)
Definition signal_retrieve_task_id_from_request (kwargs : Kwargs) : M (option string) :=
  signal_retrieve "request id" (kw_request_id kwargs).

(** Modelled from the spec: [utils.signal_retrieve_reason] is missing from
    the sources; the reason of a retry signal. *)
Definition signal_retrieve_reason (kwargs : Kwargs) : M (option Reason) :=
  signal_retrieve "reason" (kw_reason kwargs).

(** Modelled from the spec: [utils.retrieve_span] is missing from the
    sources.  It yields what is attached under the key, or nothing; the
    source unpacks the result into a span and an activation, which are both
    [None] when nothing is attached. *)
Definition retrieve_span (task : Task) (task_id : string) (is_publish : bool)
  : M (option (nat * Activation)) :=
  λ s, (Returned (span_dict s !! (task_ident task, task_id, is_publish)), s).

(** What is held under a key of the table, when another value takes its
    place: the table had the last reference to the activation, which is
    entered and not left. *)
Definition replaced (previous : option (nat * Activation)) : M unit :=
  match previous with
  | Some (_, activation) => finalize activation
  | None => mret tt
  end.

(** [span_dict[key] = value] *)
Definition span_dict_set (key : nat * string * bool) (value : nat * Activation)
  : M unit :=
  λ s, (Returned tt,
        {| spans := spans s;
           span_dict := <[key := value]> (span_dict s);
           log := log s |}).

(** Modelled from the spec: [utils.attach_span] is missing from the sources.
    The table of attached spans is keyed by task identity, task id and
    direction ([is_publish]); attaching puts the span and its activation
    under the key, in the place of what was there. *)
Definition attach_span (task : Task) (task_id : string)
    (span : nat * Activation) (is_publish : bool) : M unit :=
  previous ← retrieve_span task task_id is_publish;
  replaced previous ;;
  span_dict_set (task_ident task, task_id, is_publish) span.

(** Modelled from the spec: [utils.detach_span] is missing from the sources;
    it removes the entry under the key.  The handlers have left the
    activation of the entry before, so that nothing more comes of it. *)
Definition detach_span (task : Task) (task_id : string) (is_publish : bool) : M unit :=
  λ s, (Returned tt,
        {| spans := spans s;
           span_dict := delete (task_ident task, task_id, is_publish) (span_dict s);
           log := log s |}).

Fixpoint set_attributes (span : nat) (kvs : list (string * AttrValue)) : M unit :=
  match kvs with
  | [] => mret tt
  | (key, value) :: rest => set_attribute span key value ;; set_attributes span rest
  end.

Section Handlers.

(** Which entries of a context [utils.set_attributes_from_context] records,
    and under which keys, is left open: [context_attributes] stands for the
    attributes, in the order they are set, that it records for a context. *)
Variable context_attributes : Context → list (string * AttrValue).

(** Modelled from the spec: [utils.set_attributes_from_context] is missing
    from the sources; it sets attributes of the span from the entries of the
    context. *)
Definition set_attributes_from_context (span : nat) (context : Context) : M unit :=
  set_attributes span (context_attributes context).

(** ** The six handlers *)

Definition _trace_prerun (kwargs : Kwargs) : M unit :=
  task ← signal_retrieve_task kwargs;
  task_id ← signal_retrieve_task_id kwargs;
  match task, task_id with
  | Some task, Some task_id =>
      logger_debug "prerun signal start task_id=%s" task_id ;;
      span ← start_span (name task) CONSUMER;
      activation ← use_span span true;
      __enter__ activation ;;
      attach_span task task_id (span, activation) false
  | _, _ => mret tt
  end.

Definition _trace_postrun (kwargs : Kwargs) : M unit :=
  task ← signal_retrieve_task kwargs;
  task_id ← signal_retrieve_task_id kwargs;
  match task, task_id with
  | Some task, Some task_id =>
      logger_debug "postrun signal task_id=%s" task_id ;;
      found ← retrieve_span task task_id false;
      match found with
      | None => logger_warning "no existing span found for task_id=%s" task_id
      | Some (span, activation) =>
          set_attribute span _TASK_TAG_KEY (VStr _TASK_RUN) ;;
          set_attributes_from_context span (kw_fields kwargs) ;;
          set_attributes_from_context span (request task) ;;
          set_attribute span _TASK_NAME_KEY (VStr (name task)) ;;
          __exit__ activation ;;
          detach_span task task_id false
      end
  | _, _ => mret tt
  end.

Definition _trace_before_publish (kwargs : Kwargs) : M unit :=
  task ← signal_retrieve_task_from_sender kwargs;
  task_id ← signal_retrieve_task_id_from_message kwargs;
  match task, task_id with
  | Some task, Some task_id =>
      span ← start_span (name task) PRODUCER;
      set_attribute span _TASK_TAG_KEY (VStr _TASK_APPLY_ASYNC) ;;
      set_attribute span _MESSAGE_ID_ATTRIBUTE_NAME (VStr task_id) ;;
      set_attribute span _TASK_NAME_KEY (VStr (name task)) ;;
      set_attributes_from_context span (kw_fields kwargs) ;;
      activation ← use_span span true;
      __enter__ activation ;;
      attach_span task task_id (span, activation) true
  | _, _ => mret tt
  end.

Definition _trace_after_publish (kwargs : Kwargs) : M unit :=
  task ← signal_retrieve_task_from_sender kwargs;
  task_id ← signal_retrieve_task_id_from_message kwargs;
  match task, task_id with
  | Some task, Some task_id =>
      found ← retrieve_span task task_id true;
      match found with
      | None => logger_warning "no existing span found for task_id=%s" task_id
      | Some (_, activation) =>
          __exit__ activation ;;
          detach_span task task_id true
      end
  | _, _ => mret tt
  end.

(** [hasattr(task, "throws") and isinstance(ex.exception, task.throws)] *)
Definition expected_exception (task : Task) (ex : ExceptionInfo) : bool :=
  match throws task with
  | Some classes => isinstance (exception ex) classes
  | None => false
  end.

Definition _trace_failure (kwargs : Kwargs) : M unit :=
  task ← signal_retrieve_task_from_sender kwargs;
  task_id ← signal_retrieve_task_id kwargs;
  match task, task_id with
  | Some task, Some task_id =>
      found ← retrieve_span task task_id false;
      match found with
      | None => mret tt
      | Some (span, _) =>
          match kw_einfo kwargs with
          | None => mret tt
          | Some ex =>
              if expected_exception task ex then mret tt
              else set_status span {| canonical_code := UNKNOWN;
                                      description := Some (einfo_str ex) |}
          end
      end
  | _, _ => mret tt
  end.

Definition _trace_retry (kwargs : Kwargs) : M unit :=
  task ← signal_retrieve_task_from_sender kwargs;
  task_id ← signal_retrieve_task_id_from_request kwargs;
  reason ← signal_retrieve_reason kwargs;
  match task, task_id, reason with
  | Some task, Some task_id, Some reason =>
      found ← retrieve_span task task_id false;
      match found with
      | None => mret tt
      | Some (span, _) =>
          set_attribute span _TASK_RETRY_REASON_KEY (VStr (str_reason reason))
      end
  | _, _, _ => mret tt
  end.

(** ** Signals delivered to the handlers *)

Inductive Handler :=
| trace_prerun | trace_postrun | trace_before_publish
| trace_after_publish | trace_failure | trace_retry.

Definition handler (h : Handler) : Kwargs → M unit :=
  match h with
  | trace_prerun => _trace_prerun
  | trace_postrun => _trace_postrun
  | trace_before_publish => _trace_before_publish
  | trace_after_publish => _trace_after_publish
  | trace_failure => _trace_failure
  | trace_retry => _trace_retry
  end.

(** One call of a handler, and a sequence of such calls, oldest first. *)
Definition call (e : Handler * Kwargs) (s : State) : State :=
  exec (handler e.1 e.2) s.

Definition calls (es : list (Handler * Kwargs)) (s : State) : State :=
  foldl (λ s e, call e s) s es.

End Handlers.

(** ** Connecting the handlers to Celery's signals *)

(** The task signals of [celery.signals]. *)
Inductive Signal :=
| before_task_publish | after_task_publish | task_prerun | task_postrun
| task_retry | task_success | task_failure | task_internal_error
| task_received | task_revoked | task_unknown | task_rejected.

(** A receiver of a signal: a handler of the instrumentor, or some other
    callable of the application. *)
Inductive Receiver :=
| Own (h : Handler)
| Other (ident : nat).

#[global] Instance Handler_eq_dec : EqDecision Handler.
Proof. solve_decision. Defined.
#[global] Instance Signal_eq_dec : EqDecision Signal.
Proof. solve_decision. Defined.
#[global] Instance Receiver_eq_dec : EqDecision Receiver.
Proof. solve_decision. Defined.

(** The receivers connected to each signal, in the order of connection. *)
Definition Registry := Signal → list Receiver.

Definition no_receivers : Registry := λ _, [].

Fixpoint remove_first (r : Receiver) (l : list Receiver) : list Receiver :=
  match l with
  | [] => []
  | x :: rest => if decide (x = r) then rest else x :: remove_first r rest
  end.

(** [signal.connect(receiver, weak=False)]: Celery appends the receiver
    unless it is connected to the signal already. *)
Definition connect (sig : Signal) (r : Receiver) (reg : Registry) : Registry :=
  λ sig', if decide (sig' = sig)
          then (if decide (r ∈ reg sig) then reg sig else reg sig ++ [r])
          else reg sig'.

(** [signal.disconnect(receiver)]: Celery removes the receiver from the
    receivers of the signal. *)
Definition disconnect (sig : Signal) (r : Receiver) (reg : Registry) : Registry :=
  λ sig', if decide (sig' = sig) then remove_first r (reg sig) else reg sig'.

Definition _instrument (reg : Registry) : Registry :=
  let reg := connect task_prerun (Own trace_prerun) reg in
  let reg := connect task_postrun (Own trace_postrun) reg in
  let reg := connect before_task_publish (Own trace_before_publish) reg in
  let reg := connect after_task_publish (Own trace_after_publish) reg in
  let reg := connect task_failure (Own trace_failure) reg in
  connect task_retry (Own trace_retry) reg.

Definition _uninstrument (reg : Registry) : Registry :=
  let reg := disconnect task_prerun (Own trace_prerun) reg in
  let reg := disconnect task_postrun (Own trace_postrun) reg in
  let reg := disconnect before_task_publish (Own trace_before_publish) reg in
  let reg := disconnect after_task_publish (Own trace_after_publish) reg in
  let reg := disconnect task_failure (Own trace_failure) reg in
  disconnect task_retry (Own trace_retry) reg.

(** The handler the instrumentor connects to a signal, if any. *)
Definition own_receivers (sig : Signal) : list Receiver :=
  match sig with
  | task_prerun => [Own trace_prerun]
  | task_postrun => [Own trace_postrun]
  | before_task_publish => [Own trace_before_publish]
  | after_task_publish => [Own trace_after_publish]
  | task_failure => [Own trace_failure]
  | task_retry => [Own trace_retry]
  | _ => []
  end.

Definition is_own (r : Receiver) : bool :=
  match r with Own _ => true | Other _ => false end.

(** ** Derived notions used in the statements *)

(** How often the span at position [i] was ended ([0] when there is none). *)
Definition ended (s : State) (i : nat) : nat :=
  from_option end_count 0 (spans s !! i).

Definition kind_of_direction (is_publish : bool) : SpanKind :=
  if is_publish then PRODUCER else CONSUMER.

(** The calls [set_attributes] makes, most recent first. *)
Definition attribute_calls (kvs : list (string * AttrValue)) : list SpanCall :=
  reverse (map (λ kv, SetAttribute kv.1 kv.2) kvs).

Definition add_calls (cs : list SpanCall) (sp : Span) : Span :=
  {| span_name := span_name sp;
     span_kind := span_kind sp;
     span_calls := cs ++ span_calls sp |}.

(** The table and the spans fit together: an attached span exists, is of the
    kind of its direction, was not ended, and is attached once, with the
    activation made for it; and no span was ended twice. *)
Record consistent (s : State) : Prop := {
  attached_open : ∀ k sp act,
    span_dict s !! k = Some (sp, act) →
    act = {| act_span := sp; act_end_on_exit := true |} ∧
    ∃ x, spans s !! sp = Some x ∧ end_count x = 0 ∧
         span_kind x = kind_of_direction k.2;
  attached_once : ∀ k1 k2 sp a1 a2,
    span_dict s !! k1 = Some (sp, a1) →
    span_dict s !! k2 = Some (sp, a2) → k1 = k2;
  ended_at_most_once : ∀ i x, spans s !! i = Some x → end_count x ≤ 1
}.

(** The state after some records were logged. *)
Definition logged (msgs : list LogRecord) (s : State) : State :=
  {| spans := spans s; span_dict := span_dict s; log := msgs ++ log s |}.

(** A computation that raises no exception, in whatever state. *)
Definition returns {A} (m : M A) : Prop :=
  ∀ s, ∃ x s', m s = (Returned x, s').

(** The calls [activation.__exit__] makes on the span, most recent first. *)
Definition exit_calls (a : Activation) : list SpanCall :=
  if act_end_on_exit a then [End; Deactivate] else [Deactivate].

(** The spans after the activation of a replaced entry was finalized. *)
Definition finalized (previous : option (nat * Activation)) (l : list Span)
  : list Span :=
  match previous with
  | Some (_, a) => alter (add_calls (exit_calls a)) (act_span a) l
  | None => l
  end.

(** The attributes [_trace_postrun] sets, as calls, most recent first. *)
Definition postrun_calls (context_attributes : Context → list (string * AttrValue))
    (kwargs : Kwargs) (task : Task) : list SpanCall :=
  SetAttribute _TASK_NAME_KEY (VStr (name task))
  :: attribute_calls (context_attributes (request task))
  ++ attribute_calls (context_attributes (kw_fields kwargs))
  ++ [SetAttribute _TASK_TAG_KEY (VStr _TASK_RUN)].

(** The calls [_trace_before_publish] makes on its span, most recent first. *)
Definition before_publish_calls (context_attributes : Context → list (string * AttrValue))
    (kwargs : Kwargs) (task : Task) (task_id : string) : list SpanCall :=
  Activate
  :: attribute_calls (context_attributes (kw_fields kwargs))
  ++ [SetAttribute _TASK_NAME_KEY (VStr (name task));
      SetAttribute _MESSAGE_ID_ATTRIBUTE_NAME (VStr task_id);
      SetAttribute _TASK_TAG_KEY (VStr _TASK_APPLY_ASYNC)].

(** The identifiers a handler expects are all there. *)
Definition present {A} (o : option A) : bool :=
  match o with Some _ => true | None => false end.

Definition identified (h : Handler) (kw : Kwargs) : bool :=
  match h with
  | trace_prerun | trace_postrun =>
      present (kw_task kw) && present (kw_task_id kw)
  | trace_before_publish | trace_after_publish =>
      present (kw_sender kw) && present (kw_message_id kw)
  | trace_failure =>
      present (kw_sender kw) && present (kw_task_id kw)
  | trace_retry =>
      present (kw_sender kw) && present (kw_request_id kw)
      && present (kw_reason kw)
  end.

(** The entry of the table a call of a handler is about, if any: the run of
    a task for the prerun and postrun handlers, its publication for the
    before- and after-publish handlers. *)
Definition event_key (e : Handler * Kwargs) : option (nat * string * bool) :=
  match e.1 with
  | trace_prerun | trace_postrun =>
      match kw_task e.2, kw_task_id e.2 with
      | Some t, Some i => Some (task_ident t, i, false)
      | _, _ => None
      end
  | trace_before_publish | trace_after_publish =>
      match kw_sender e.2, kw_message_id e.2 with
      | Some t, Some i => Some (task_ident t, i, true)
      | _, _ => None
      end
  | trace_failure | trace_retry => None
  end.

(** The handlers that start a span, and those that end one. *)
Definition opens (h : Handler) : bool :=
  match h with trace_prerun | trace_before_publish => true | _ => false end.

Definition closes (h : Handler) : bool :=
  match h with trace_postrun | trace_after_publish => true | _ => false end.

(** The shapes the effect of a handler [h] on the state can take; [ko] is
    the entry of the table that may change. *)
Inductive effect (s : State) (h : Handler)
  : option (nat * string * bool) → State → Prop :=
| effect_none ko : effect s h ko s
| effect_log ko msgs : effect s h ko (logged msgs s)
| effect_open nm b cs t i l :
    opens h = true →
    ends cs = 0 →
    effect s h (Some (t, i, b))
      {| spans := finalized (span_dict s !! (t, i, b))
                    (spans s ++ [ {| span_name := nm;
                                     span_kind := kind_of_direction b;
                                     span_calls := cs |} ]);
         span_dict := <[(t, i, b) := (length (spans s),
                                      {| act_span := length (spans s);
                                         act_end_on_exit := true |})]> (span_dict s);
         log := l |}
| effect_close k sp act cs l :
    closes h = true →
    span_dict s !! k = Some (sp, act) →
    ends cs = 0 →
    effect s h (Some k)
      {| spans := alter (add_calls (exit_calls act)) (act_span act)
                    (alter (add_calls cs) sp (spans s));
         span_dict := delete k (span_dict s);
         log := l |}
| effect_annotate ko sp cs l :
    ends cs = 0 →
    effect s h ko
      {| spans := alter (add_calls cs) sp (spans s);
         span_dict := span_dict s;
         log := l |}.

Definition opener (is_publish : bool) : Handler :=
  if is_publish then trace_before_publish else trace_prerun.

Definition closer (is_publish : bool) : Handler :=
  if is_publish then trace_after_publish else trace_postrun.

(** The keys under which a list of attributes is recorded. *)
Definition keys (kvs : list (string * AttrValue)) : list string := map fst kvs.

(** The exception is one the task declares: the task has a [throws], and
    the class of the exception or a class it inherits from is in it. *)
Definition declared (t : Task) (ex : ExceptionInfo) : Prop :=
  ∃ classes c, throws t = Some classes ∧ c ∈ classes
    ∧ c ∈ cls_name (exc_class (exception ex))
          :: cls_bases (exc_class (exception ex)).

(** ** A task, its signals and a state, for the examples *)

Module Example.

(** An instance of [context_attributes]: every entry of the context is
    recorded under its key, prefixed by "celery.". *)
Definition prefixed (context : Context) : list (string * AttrValue) :=
  map (λ kv, (String.append "celery." kv.1, kv.2)) context.

Definition add_task : Task :=
  {| task_ident := 1;
     name := "tasks.add";
     throws := Some ["KeyError"];
     request := [("hostname", VStr "worker1"); ("retries", VInt 2)] |}.

Definition nothing : Kwargs :=
  {| kw_task := None; kw_task_id := None; kw_sender := None;
     kw_message_id := None; kw_request_id := None; kw_reason := None;
     kw_einfo := None; kw_fields := [] |}.

(** The keyword arguments of the prerun and postrun signals of a run. *)
Definition run_signal : Kwargs :=
  {| kw_task := Some add_task; kw_task_id := Some "7f3a"; kw_sender := Some add_task;
     kw_message_id := None; kw_request_id := None; kw_reason := None;
     kw_einfo := None; kw_fields := [("state", VStr "SUCCESS")] |}.

(** Those of the before- and after-publish signals of the same task id. *)
Definition publish_signal : Kwargs :=
  {| kw_task := None; kw_task_id := None; kw_sender := Some add_task;
     kw_message_id := Some "7f3a"; kw_request_id := None; kw_reason := None;
     kw_einfo := None; kw_fields := [("routing_key", VStr "celery")] |}.

(** A class that inherits from [KeyError], and a failure with it. *)
Definition MissingKey : ExcClass :=
  {| cls_name := "MissingKey";
     cls_bases := ["KeyError"; "LookupError"; "Exception"; "BaseException";
                   "object"] |}.

Definition missing_key : ExceptionInfo :=
  {| exception := {| exc_class := MissingKey |};
     einfo_str := "Traceback (most recent call last): MissingKey" |}.

Definition ValueError : ExcClass :=
  {| cls_name := "ValueError";
     cls_bases := ["Exception"; "BaseException"; "object"] |}.

Definition value_error : ExceptionInfo :=
  {| exception := {| exc_class := ValueError |};
     einfo_str := "Traceback (most recent call last): ValueError" |}.

Definition failure_signal (einfo : option ExceptionInfo) : Kwargs :=
  {| kw_task := None; kw_task_id := Some "7f3a"; kw_sender := Some add_task;
     kw_message_id := None; kw_request_id := None; kw_reason := None;
     kw_einfo := einfo; kw_fields := [] |}.

Definition retry_signal : Kwargs :=
  {| kw_task := None; kw_task_id := None; kw_sender := Some add_task;
     kw_message_id := None; kw_request_id := Some "7f3a";
     kw_reason := Some (ReasonObject "Retry in 3s");
     kw_einfo := None; kw_fields := [] |}.

(** The state while the task runs: after its prerun signal. *)
Definition running : State := call prefixed (trace_prerun, run_signal) init.

(** The span of the run, as the prerun handler leaves it. *)
Definition run_span : Span :=
  {| span_name := "tasks.add"; span_kind := CONSUMER; span_calls := [Activate] |}.

Definition run_activation : Activation :=
  {| act_span := 0; act_end_on_exit := true |}.

(** Another instance of [context_attributes]: the entry "id" of a context is
    recorded as the id of the message, under "messaging.message_id", and
    every other entry under its key, prefixed by "celery.". *)
Definition with_message_id (context : Context) : list (string * AttrValue) :=
  map (λ kv, (if decide (kv.1 = "id") then _MESSAGE_ID_ATTRIBUTE_NAME
              else String.append "celery." kv.1, kv.2)) context.

(** The keyword arguments of a before-publish signal that have an entry
    "id" of their own, which is not the task id of the message. *)
Definition publish_with_id : Kwargs :=
  {| kw_task := None; kw_task_id := None; kw_sender := Some add_task;
     kw_message_id := Some "7f3a"; kw_request_id := None; kw_reason := None;
     kw_einfo := None;
     kw_fields := [("id", VStr "b2c9"); ("routing_key", VStr "celery")] |}.

(** Some other receiver of the application, connected to a signal. *)
Definition application : Registry :=
  λ sig, match sig with task_success => [Other 1] | _ => [] end.

End Example.

(** ** Further notions: the order of the calls on a span *)

Definition is_set_attribute (c : SpanCall) : bool :=
  match c with SetAttribute _ _ => true | _ => false end.

(** What the failure and retry handlers record: a status UNKNOWN, or the
    reason of a retry. *)
Definition is_annotation (c : SpanCall) : bool :=
  match c with
  | SetStatus st => bool_decide (canonical_code st = UNKNOWN)
  | SetAttribute key _ => bool_decide (key = _TASK_RETRY_REASON_KEY)
  | _ => false
  end.

(** Calls that neither activate nor deactivate nor end the span. *)
Definition is_plain (c : SpanCall) : bool :=
  match c with SetAttribute _ _ | SetStatus _ => true | _ => false end.

(** The calls of a span that is open, most recent first: attributes, then
    one activation, then attributes and statuses. *)
Definition open_calls (calls : list SpanCall) : Prop :=
  ∃ pre post,
    Forall (λ c, is_set_attribute c = true) pre
    ∧ Forall (λ c, is_plain c = true) post
    ∧ calls = post ++ Activate :: pre.

(** The calls of a span, open or ended: an ended span has the calls of an
    open one, then left its context and was ended, and that is all. *)
Definition ordered_calls (calls : list SpanCall) : Prop :=
  open_calls calls ∨ ∃ rest, calls = End :: Deactivate :: rest ∧ open_calls rest.

(** The span at position [j] is attached under no key. *)
Definition unattached (s : State) (j : nat) : Prop :=
  ∀ k sp act, span_dict s !! k = Some (sp, act) → sp ≠ j ∧ act_span act ≠ j.

(** The entry of the table a call of a handler is about: as [event_key],
    and for the failure and retry handlers the entry of the run. *)
Definition subject (e : Handler * Kwargs) : option (nat * string * bool) :=
  match e.1 with
  | trace_failure =>
      match kw_sender e.2, kw_task_id e.2 with
      | Some t, Some i => Some (task_ident t, i, false)
      | _, _ => None
      end
  | trace_retry =>
      match kw_sender e.2, kw_request_id e.2 with
      | Some t, Some i => Some (task_ident t, i, false)
      | _, _ => None
      end
  | _ => event_key e
  end.

(** What a call of a handler does, with what it takes from the table; [ko]
    is the entry of the table that the call is about. *)
Inductive transition (s : State)
  : option (nat * string * bool) → State → Prop :=
| transition_none ko : transition s ko s
| transition_log ko msgs : transition s ko (logged msgs s)
| transition_open nm b cs t i l :
    Forall (λ c, is_set_attribute c = true) cs →
    transition s (Some (t, i, b))
      {| spans := finalized (span_dict s !! (t, i, b))
                    (spans s ++ [ {| span_name := nm;
                                     span_kind := kind_of_direction b;
                                     span_calls := Activate :: cs |} ]);
         span_dict := <[(t, i, b) := (length (spans s),
                                      {| act_span := length (spans s);
                                         act_end_on_exit := true |})]> (span_dict s);
         log := l |}
| transition_close k sp act cs l :
    span_dict s !! k = Some (sp, act) →
    Forall (λ c, is_set_attribute c = true) cs →
    transition s (Some k)
      {| spans := alter (add_calls (exit_calls act)) (act_span act)
                    (alter (add_calls cs) sp (spans s));
         span_dict := delete k (span_dict s);
         log := l |}
| transition_annotate t i sp act c l :
    span_dict s !! (t, i, false) = Some (sp, act) →
    is_annotation c = true →
    transition s (Some (t, i, false))
      {| spans := alter (record_call c) sp (spans s);
         span_dict := span_dict s;
         log := l |}.

(** The statuses that [set_status] was called with, most recent first. *)
Fixpoint status_calls (calls : list SpanCall) : list Status :=
  match calls with
  | [] => []
  | SetStatus st :: rest => st :: status_calls rest
  | _ :: rest => status_calls rest
  end.

(** The status [end] gives a span on which none was set. *)
Definition status_on_end : Status :=
  {| canonical_code := OK; description := None |}.

(** On a span of a publication [set_status] is not called; on a span of a
    run it is called with UNKNOWN only. *)
Definition status_by_kind (x : Span) : Prop :=
  (span_kind x = PRODUCER ∧ status_calls (span_calls x) = [])
  ∨ (span_kind x = CONSUMER
     ∧ Forall (λ st, canonical_code st = UNKNOWN) (status_calls (span_calls x))).

(** A call that starts a span: of a handler that opens, with its
    identifiers. *)
Definition starts (e : Handler * Kwargs) : bool :=
  opens e.1 && identified e.1 e.2.

(** The receivers of a signal that are not handlers of the instrumentor. *)
Definition others (l : list Receiver) : list Receiver :=
  filter (λ r, is_own r = false) l.

(** ** A second task and a finished run, for further examples *)

Module Sample.

(** A task with the [throws] that Celery gives it by default. *)
Definition mul : Task :=
  {| task_ident := 2; name := "tasks.mul"; throws := Some []; request := [] |}.

Definition mul_run : Kwargs :=
  {| kw_task := Some mul; kw_task_id := Some "9c1e"; kw_sender := Some mul;
     kw_message_id := None; kw_request_id := None; kw_reason := None;
     kw_einfo := None; kw_fields := [] |}.

Definition mul_failure : Kwargs :=
  {| kw_task := None; kw_task_id := Some "9c1e"; kw_sender := Some mul;
     kw_message_id := None; kw_request_id := None; kw_reason := None;
     kw_einfo := Some Example.value_error; kw_fields := [] |}.

Definition mul_running : State :=
  call Example.prefixed (trace_prerun, mul_run) init.

Definition mul_span : Span :=
  {| span_name := "tasks.mul"; span_kind := CONSUMER; span_calls := [Activate] |}.

(** The run of [Example.add_task], from its prerun to its postrun signal. *)
Definition finished : State :=
  calls Example.prefixed
    [(trace_prerun, Example.run_signal); (trace_postrun, Example.run_signal)]
    init.

(** Its span, as the postrun handler leaves it. *)
Definition finished_span : Span :=
  {| span_name := "tasks.add";
     span_kind := CONSUMER;
     span_calls :=
       [End; Deactivate;
        SetAttribute "celery.task_name" (VStr "tasks.add");
        SetAttribute "celery.retries" (VInt 2);
        SetAttribute "celery.hostname" (VStr "worker1");
        SetAttribute "celery.state" (VStr "SUCCESS");
        SetAttribute "celery.action" (VStr "run");
        Activate] |}.

End Sample.

(** * Properties *)

Section Properties.

Variable context_attributes : Context → list (string * AttrValue).

Local Abbreviation postrun := (_trace_postrun context_attributes).
Local Abbreviation before_publish := (_trace_before_publish context_attributes).
Local Abbreviation run := (calls context_attributes).
Local Abbreviation step := (call context_attributes).

(** ** Calls recorded on a span *)

Lemma ends_app cs1 cs2 : ends (cs1 ++ cs2) = ends cs1 + ends cs2.
Proof. unfold ends. by rewrite filter_app, length_app. Qed.

Lemma ends_attribute_calls kvs : ends (attribute_calls kvs) = 0.
Proof.
  unfold attribute_calls.
  induction kvs as [|[k v] rest IH]; [done|].
  simpl. rewrite reverse_cons, ends_app, IH. done.
Qed.

Lemma end_count_add_calls cs x :
  end_count (add_calls cs x) = ends cs + end_count x.
Proof. unfold end_count, add_calls. simpl. apply ends_app. Qed.

Lemma add_calls_nil x : add_calls [] x = x.
Proof. by destruct x. Qed.

Lemma add_calls_add_calls cs1 cs2 x :
  add_calls cs1 (add_calls cs2 x) = add_calls (cs1 ++ cs2) x.
Proof. unfold add_calls. simpl. by rewrite app_assoc. Qed.

Lemma record_call_add_calls c x : record_call c x = add_calls [c] x.
Proof. done. Qed.

Lemma alter_add_calls cs1 cs2 i (l : list Span) :
  alter (add_calls cs1) i (alter (add_calls cs2) i l)
  = alter (add_calls (cs1 ++ cs2)) i l.
Proof.
  rewrite list_alter_alter_eq. apply list_alter_ext; [|done].
  intros x _. simpl. apply add_calls_add_calls.
Qed.

Lemma alter_last (f : Span → Span) (l : list Span) x :
  alter f (length l) (l ++ [x]) = l ++ [f x].
Proof.
  rewrite alter_app_r_alt by lia. by rewrite Nat.sub_diag.
Qed.

(** ** What the helpers do to the state *)

Lemma set_attributes_spec span kvs s :
  set_attributes span kvs s
  = (Returned tt,
     {| spans := alter (add_calls (attribute_calls kvs)) span (spans s);
        span_dict := span_dict s;
        log := log s |}).
Proof.
  revert s. induction kvs as [|[k v] rest IH]; intros s; simpl.
  - unfold mret, M_ret. f_equal. destruct s; simpl. f_equal.
    symmetry. apply list_alter_id. apply add_calls_nil.
  - unfold mbind, M_bind, set_attribute, span_call. rewrite IH. simpl.
    do 2 f_equal.
    change (record_call (SetAttribute k v)) with (add_calls [SetAttribute k v]).
    rewrite alter_add_calls.
    unfold attribute_calls. simpl. by rewrite reverse_cons.
Qed.

(** ** What each handler does to the state *)

Ltac run_handler :=
  unfold exec, _trace_prerun, _trace_postrun, _trace_before_publish,
    _trace_after_publish, _trace_failure, _trace_retry,
    signal_retrieve_task, signal_retrieve_task_id,
    signal_retrieve_task_from_sender, signal_retrieve_task_id_from_message,
    signal_retrieve_task_id_from_request, signal_retrieve_reason,
    signal_retrieve, set_attributes_from_context, __enter__, __exit__,
    attach_span, replaced, finalize, use_span, set_attribute, set_status,
    mbind, M_bind, mret, M_ret.

Lemma finalized_step a (l : list Span) :
  (if act_end_on_exit a
   then alter (record_call End) (act_span a)
          (alter (record_call Deactivate) (act_span a) l)
   else alter (record_call Deactivate) (act_span a) l)
  = alter (add_calls (exit_calls a)) (act_span a) l.
Proof.
  unfold exit_calls. destruct (act_end_on_exit a); [|done].
  change (record_call ?c) with (add_calls [c]). by rewrite alter_add_calls.
Qed.

Lemma prerun_present kw t i s :
  kw_task kw = Some t → kw_task_id kw = Some i →
  exec (_trace_prerun kw) s
  = {| spans := finalized (span_dict s !! (task_ident t, i, false))
                  (spans s ++ [ {| span_name := name t; span_kind := CONSUMER;
                                   span_calls := [Activate] |} ]);
       span_dict := <[(task_ident t, i, false) :=
                        (length (spans s),
                         {| act_span := length (spans s);
                            act_end_on_exit := true |})]> (span_dict s);
       log := LogDebug "prerun signal start task_id=%s" i :: log s |}.
Proof.
  intros Ht Hi. run_handler. rewrite Ht, Hi. simpl.
  rewrite alter_last. unfold retrieve_span. simpl.
  destruct (span_dict s !! (task_ident t, i, false)) as [[sp' a]|]; simpl;
    [|done].
  rewrite <- finalized_step. by destruct (act_end_on_exit a).
Qed.

Lemma before_publish_present kw t i s :
  kw_sender kw = Some t → kw_message_id kw = Some i →
  exec (before_publish kw) s
  = {| spans := finalized (span_dict s !! (task_ident t, i, true))
                  (spans s ++ [ {| span_name := name t; span_kind := PRODUCER;
                                   span_calls :=
                                     before_publish_calls context_attributes
                                       kw t i |} ]);
       span_dict := <[(task_ident t, i, true) :=
                        (length (spans s),
                         {| act_span := length (spans s);
                            act_end_on_exit := true |})]> (span_dict s);
       log := log s |}.
Proof.
  intros Ht Hi. run_handler. rewrite Ht, Hi. simpl.
  rewrite set_attributes_spec. simpl.
  rewrite !(alter_last _ (spans s)). simpl.
  unfold retrieve_span. simpl.
  destruct (span_dict s !! (task_ident t, i, true)) as [[sp' a]|]; simpl;
    [|done].
  rewrite <- finalized_step. by destruct (act_end_on_exit a).
Qed.

Lemma postrun_found kw t i sp act s :
  kw_task kw = Some t → kw_task_id kw = Some i →
  span_dict s !! (task_ident t, i, false) = Some (sp, act) →
  exec (postrun kw) s
  = {| spans := alter (add_calls (exit_calls act)) (act_span act)
                  (alter (add_calls (postrun_calls context_attributes kw t)) sp
                     (spans s));
       span_dict := delete (task_ident t, i, false) (span_dict s);
       log := LogDebug "postrun signal task_id=%s" i :: log s |}.
Proof.
  intros Ht Hi Hsp. run_handler. rewrite Ht, Hi. simpl.
  unfold retrieve_span. simpl. rewrite Hsp. simpl.
  rewrite !set_attributes_spec. simpl.
  change (record_call ?c) with (add_calls [c]).
  rewrite !alter_add_calls.
  unfold exit_calls. destruct (act_end_on_exit act); simpl.
  - change (record_call ?c) with (add_calls [c]).
    rewrite alter_add_calls. do 3 f_equal.
    unfold postrun_calls. simpl. by rewrite <- !app_assoc.
  - do 3 f_equal. unfold postrun_calls. simpl. by rewrite <- !app_assoc.
Qed.

Lemma postrun_not_found kw t i s :
  kw_task kw = Some t → kw_task_id kw = Some i →
  span_dict s !! (task_ident t, i, false) = None →
  exec (postrun kw) s
  = logged [LogWarning "no existing span found for task_id=%s" i;
            LogDebug "postrun signal task_id=%s" i] s.
Proof.
  intros Ht Hi Hsp. run_handler. rewrite Ht, Hi. simpl.
  unfold retrieve_span. simpl. rewrite Hsp. reflexivity.
Qed.

Lemma after_publish_found kw t i sp act s :
  kw_sender kw = Some t → kw_message_id kw = Some i →
  span_dict s !! (task_ident t, i, true) = Some (sp, act) →
  exec (_trace_after_publish kw) s
  = {| spans := alter (add_calls (exit_calls act)) (act_span act) (spans s);
       span_dict := delete (task_ident t, i, true) (span_dict s);
       log := log s |}.
Proof.
  intros Ht Hi Hsp. run_handler. rewrite Ht, Hi. simpl.
  unfold retrieve_span. rewrite Hsp. simpl.
  unfold exit_calls. destruct (act_end_on_exit act); simpl.
  - change (record_call ?c) with (add_calls [c]).
    by rewrite alter_add_calls.
  - reflexivity.
Qed.

Lemma after_publish_not_found kw t i s :
  kw_sender kw = Some t → kw_message_id kw = Some i →
  span_dict s !! (task_ident t, i, true) = None →
  exec (_trace_after_publish kw) s
  = logged [LogWarning "no existing span found for task_id=%s" i] s.
Proof.
  intros Ht Hi Hsp. run_handler. rewrite Ht, Hi. simpl.
  unfold retrieve_span. rewrite Hsp. reflexivity.
Qed.

Lemma failure_found kw t i sp act s :
  kw_sender kw = Some t → kw_task_id kw = Some i →
  span_dict s !! (task_ident t, i, false) = Some (sp, act) →
  exec (_trace_failure kw) s
  = match kw_einfo kw with
    | None => s
    | Some ex =>
        if expected_exception t ex then s
        else {| spans := alter (record_call
                                  (SetStatus {| canonical_code := UNKNOWN;
                                                description := Some (einfo_str ex) |}))
                           sp (spans s);
                span_dict := span_dict s;
                log := log s |}
    end.
Proof.
  intros Ht Hi Hsp. run_handler. rewrite Ht, Hi. simpl.
  unfold retrieve_span. rewrite Hsp.
  destruct (kw_einfo kw) as [ex|]; [|done].
  by destruct (expected_exception t ex).
Qed.

Lemma failure_not_found kw t i s :
  kw_sender kw = Some t → kw_task_id kw = Some i →
  span_dict s !! (task_ident t, i, false) = None →
  exec (_trace_failure kw) s = s.
Proof.
  intros Ht Hi Hsp. run_handler. rewrite Ht, Hi. simpl.
  unfold retrieve_span. by rewrite Hsp.
Qed.

Lemma retry_found kw t i r sp act s :
  kw_sender kw = Some t → kw_request_id kw = Some i → kw_reason kw = Some r →
  span_dict s !! (task_ident t, i, false) = Some (sp, act) →
  exec (_trace_retry kw) s
  = {| spans := alter (record_call
                         (SetAttribute _TASK_RETRY_REASON_KEY (VStr (str_reason r))))
                  sp (spans s);
       span_dict := span_dict s;
       log := log s |}.
Proof.
  intros Ht Hi Hr Hsp. run_handler. rewrite Ht, Hi, Hr. simpl.
  unfold retrieve_span. by rewrite Hsp.
Qed.

Lemma retry_not_found kw t i r s :
  kw_sender kw = Some t → kw_request_id kw = Some i → kw_reason kw = Some r →
  span_dict s !! (task_ident t, i, false) = None →
  exec (_trace_retry kw) s = s.
Proof.
  intros Ht Hi Hr Hsp. run_handler. rewrite Ht, Hi, Hr. simpl.
  unfold retrieve_span. by rewrite Hsp.
Qed.

Lemma handler_unidentified h kw s :
  identified h kw = false →
  ∃ msgs, msgs ≠ [] ∧ handler context_attributes h kw s = (Returned tt, logged msgs s).
Proof.
  unfold handler, identified. intros Hn.
  destruct h; run_handler;
    destruct kw as [task task_id sender message_id request_id reason einfo fields];
    simpl in *.
  all: repeat match goal with
       | |- context [match ?o with Some _ => _ | None => _ end] =>
           is_var o; destruct o
       end; simpl in *.
  all: try discriminate Hn.
  all: try (eexists [_]; split; [done | reflexivity]).
  all: try (eexists [_; _]; split; [done | reflexivity]).
  all: try (eexists [_; _; _]; split; [done | reflexivity]).
Qed.

Lemma step_unidentified h kw s :
  identified h kw = false → ∃ msgs, step (h, kw) s = logged msgs s.
Proof.
  intros Hn. destruct (handler_unidentified h kw s Hn) as (msgs & _ & Heq).
  exists msgs. unfold call, exec. simpl. by rewrite Heq.
Qed.

(** ** Every call of a handler has one of four effects *)

Lemma ends_postrun_calls kw t : ends (postrun_calls context_attributes kw t) = 0.
Proof.
  unfold postrun_calls.
  change (SetAttribute ?k ?v :: ?l) with ([SetAttribute k v] ++ l).
  by rewrite !ends_app, !ends_attribute_calls.
Qed.

Lemma ends_before_publish_calls kw t i :
  ends (before_publish_calls context_attributes kw t i) = 0.
Proof.
  unfold before_publish_calls.
  change (Activate :: ?l) with ([Activate] ++ l).
  by rewrite !ends_app, !ends_attribute_calls.
Qed.

Lemma step_effect e s : effect s e.1 (event_key e) (step e s).
Proof.
  destruct e as [h kw]. unfold event_key. cbn [fst snd].
  destruct h; cbn match.
  - destruct (kw_task kw) as [t|] eqn:Ht, (kw_task_id kw) as [i|] eqn:Hi.
    2-4: destruct (step_unidentified trace_prerun kw s) as (msgs & ->);
         [unfold identified; by rewrite Ht, Hi
         | apply effect_log].
    change (step (trace_prerun, kw) s) with (exec (_trace_prerun kw) s).
    rewrite (prerun_present kw t i) by done.
    by apply (effect_open s _ (name t) false [Activate]).
  - destruct (kw_task kw) as [t|] eqn:Ht, (kw_task_id kw) as [i|] eqn:Hi.
    2-4: destruct (step_unidentified trace_postrun kw s) as (msgs & ->);
         [unfold identified; by rewrite Ht, Hi
         | apply effect_log].
    change (step (trace_postrun, kw) s) with (exec (postrun kw) s).
    destruct (span_dict s !! (task_ident t, i, false)) as [[sp act]|] eqn:Hsp.
    + rewrite (postrun_found kw t i sp act) by done.
      apply effect_close; [done | done | apply ends_postrun_calls].
    + rewrite (postrun_not_found kw t i) by done. apply effect_log.
  - destruct (kw_sender kw) as [t|] eqn:Ht, (kw_message_id kw) as [i|] eqn:Hi.
    2-4: destruct (step_unidentified trace_before_publish kw s) as (msgs & ->);
         [unfold identified; by rewrite Ht, Hi
         | apply effect_log].
    change (step (trace_before_publish, kw) s) with (exec (before_publish kw) s).
    rewrite (before_publish_present kw t i) by done.
    apply (effect_open s _ (name t) true); [done|].
    apply ends_before_publish_calls.
  - destruct (kw_sender kw) as [t|] eqn:Ht, (kw_message_id kw) as [i|] eqn:Hi.
    2-4: destruct (step_unidentified trace_after_publish kw s) as (msgs & ->);
         [unfold identified; by rewrite Ht, Hi
         | apply effect_log].
    change (step (trace_after_publish, kw) s) with (exec (_trace_after_publish kw) s).
    destruct (span_dict s !! (task_ident t, i, true)) as [[sp act]|] eqn:Hsp.
    + rewrite (after_publish_found kw t i sp act) by done.
      rewrite <- (list_alter_id (add_calls []) (spans s) sp) at 1
        by apply add_calls_nil.
      by apply effect_close.
    + rewrite (after_publish_not_found kw t i) by done. apply effect_log.
  - destruct (kw_sender kw) as [t|] eqn:Ht, (kw_task_id kw) as [i|] eqn:Hi.
    2-4: destruct (step_unidentified trace_failure kw s) as (msgs & ->);
         [unfold identified; by rewrite Ht, Hi
         | apply effect_log].
    change (step (trace_failure, kw) s) with (exec (_trace_failure kw) s).
    destruct (span_dict s !! (task_ident t, i, false)) as [[sp act]|] eqn:Hsp.
    + rewrite (failure_found kw t i sp act) by done.
      destruct (kw_einfo kw) as [ex|]; [|apply effect_none].
      destruct (expected_exception t ex); [apply effect_none|].
      by apply (effect_annotate s _ None sp [SetStatus _]).
    + rewrite (failure_not_found kw t i) by done. apply effect_none.
  - destruct (kw_sender kw) as [t|] eqn:Ht, (kw_request_id kw) as [i|] eqn:Hi,
      (kw_reason kw) as [r|] eqn:Hr.
    2-8: destruct (step_unidentified trace_retry kw s) as (msgs & ->);
         [unfold identified; by rewrite Ht, Hi, Hr
         | apply effect_log].
    change (step (trace_retry, kw) s) with (exec (_trace_retry kw) s).
    destruct (span_dict s !! (task_ident t, i, false)) as [[sp act]|] eqn:Hsp.
    + rewrite (retry_found kw t i r sp act) by done.
      by apply (effect_annotate s _ None sp [SetAttribute _ _]).
    + rewrite (retry_not_found kw t i r) by done. apply effect_none.
Qed.

(** ** Consequences of the four effects *)

Lemma lookup_alter_add_calls cs i j (l : list Span) x :
  l !! j = Some x →
  ∃ cs', alter (add_calls cs) i l !! j = Some (add_calls cs' x).
Proof.
  intros Hx. destruct (decide (i = j)) as [->|Hne].
  - exists cs. by rewrite list_lookup_alter_eq, Hx.
  - exists []. by rewrite list_lookup_alter_ne, add_calls_nil.
Qed.

Lemma length_finalized o (l : list Span) : length (finalized o l) = length l.
Proof. destruct o as [[sp a]|]; [apply length_alter | done]. Qed.

Lemma lookup_finalized o (l : list Span) j x :
  l !! j = Some x → ∃ cs, finalized o l !! j = Some (add_calls cs x).
Proof.
  intros Hx. destruct o as [[sp a]|]; simpl.
  - by apply lookup_alter_add_calls.
  - exists []. by rewrite add_calls_nil.
Qed.

Lemma lookup_finalized_ne o (l : list Span) j :
  (∀ sp a, o = Some (sp, a) → act_span a ≠ j) →
  finalized o l !! j = l !! j.
Proof.
  intros Hne. destruct o as [[sp a]|]; [|done]. simpl.
  apply list_lookup_alter_ne. by apply (Hne sp).
Qed.

(** A span, once issued, stays where it is; calls are only added to it. *)
Lemma effect_extends s h ko s' j x :
  effect s h ko s' → spans s !! j = Some x →
  ∃ cs, spans s' !! j = Some (add_calls cs x).
Proof.
  intros Heff Hx. destruct Heff; simpl.
  - exists []. by rewrite add_calls_nil.
  - exists []. by rewrite add_calls_nil.
  - apply (lookup_app_l_Some _ [ {| span_name := nm;
                                    span_kind := kind_of_direction b;
                                    span_calls := cs |} ]) in Hx.
    unfold finalized. destruct (span_dict s !! (t, i, b)) as [[sp' a]|].
    + by apply lookup_alter_add_calls.
    + exists []. by rewrite add_calls_nil.
  - destruct (lookup_alter_add_calls cs sp j _ x Hx) as [cs1 Hcs1].
    destruct (lookup_alter_add_calls (exit_calls act) (act_span act) j _ _ Hcs1)
      as [cs2 Hcs2].
    exists (cs2 ++ cs1). by rewrite Hcs2, add_calls_add_calls.
  - by apply lookup_alter_add_calls.
Qed.

Lemma effect_dict s h ko s' k :
  effect s h ko s' → ko ≠ Some k → span_dict s' !! k = span_dict s !! k.
Proof.
  intros Heff Hk. destruct Heff; simpl; try done.
  - apply lookup_insert_ne. congruence.
  - apply lookup_delete_ne. congruence.
Qed.

Lemma effect_consistent s h ko s' :
  effect s h ko s' → consistent s → consistent s'.
Proof.
  intros Heff [Hopen Honce Hmost].
  destruct Heff as [ko | ko msgs | nm b cs t i l _ Hcs
                   | k sp act cs l _ Hlook Hcs | ko sp cs l Hcs].
  - by split.
  - by split.
  - assert (Honce' : ∀ k1 k2 sp a1 a2,
              <[(t, i, b) := (length (spans s),
                              {| act_span := length (spans s);
                                 act_end_on_exit := true |})]> (span_dict s)
                !! k1 = Some (sp, a1) →
              <[(t, i, b) := (length (spans s),
                              {| act_span := length (spans s);
                                 act_end_on_exit := true |})]> (span_dict s)
                !! k2 = Some (sp, a2) → k1 = k2).
    { intros k1 k2 sp a1 a2. rewrite !lookup_insert.
      repeat case_decide; intros H1 H2; simplify_eq; try done.
      * destruct (Hopen _ _ _ H2) as (_ & x & Hx & _).
        apply lookup_lt_Some in Hx. lia.
      * destruct (Hopen _ _ _ H1) as (_ & x & Hx & _).
        apply lookup_lt_Some in Hx. lia.
      * by eapply Honce. }
    destruct (span_dict s !! (t, i, b)) as [[sp0 a0]|] eqn:Hold; simpl.
    + destruct (Hopen _ _ _ Hold) as (-> & x0 & Hx0 & Hx00 & Hkind0). simpl.
      assert (Hlt : sp0 < length (spans s)) by by apply lookup_lt_Some in Hx0.
      split; simpl; [| done |].
      * intros k sp act. rewrite lookup_insert.
        case_decide as Hk; intros Hl.
        -- simplify_eq. split; [done|]. eexists.
           split; [rewrite list_lookup_alter_ne by lia;
                   by apply list_lookup_middle|].
           by split.
        -- destruct (Hopen _ _ _ Hl) as (-> & x & Hx & Hx' & Hkind).
           split; [done|]. exists x. split; [|done].
           rewrite list_lookup_alter_ne; [by apply lookup_app_l_Some|].
           intros ->. apply Hk. by apply (Honce _ _ sp _ _ Hold Hl).
      * intros j x Hx. destruct (decide (sp0 = j)) as [->|Hne].
        -- rewrite list_lookup_alter_eq in Hx.
           rewrite (lookup_app_l_Some _ _ _ _ Hx0) in Hx. simpl in Hx.
           simplify_eq. rewrite end_count_add_calls, Hx00. done.
        -- rewrite list_lookup_alter_ne in Hx by done.
           apply lookup_app_Some in Hx as [Hx|[_ Hx]].
           ++ by eapply Hmost.
           ++ apply list_lookup_singleton_Some in Hx as [_ <-].
              unfold end_count. simpl. lia.
    + split; simpl; [| done |].
      * intros k sp act. rewrite lookup_insert.
        case_decide as Hk; intros Hl.
        -- simplify_eq. split; [done|]. eexists.
           split; [by apply list_lookup_middle|]. by split.
        -- destruct (Hopen _ _ _ Hl) as (-> & x & Hx & Hx0 & Hkind).
           split; [done|]. exists x. split; [|done].
           by apply lookup_app_l_Some.
      * intros j x Hx. apply lookup_app_Some in Hx as [Hx|[_ Hx]].
        -- by eapply Hmost.
        -- apply list_lookup_singleton_Some in Hx as [_ <-].
           unfold end_count. simpl. lia.
  - destruct (Hopen _ _ _ Hlook) as (-> & x & Hx & Hx0 & Hkind). simpl.
    rewrite alter_add_calls.
    assert (Hends : ends (End :: Deactivate :: cs) = 1).
    { change (ends ([End; Deactivate] ++ cs) = 1). by rewrite ends_app, Hcs. }
    split; simpl.
    + intros k' sp' act' Hl.
      apply lookup_delete_Some in Hl as [Hne Hl].
      destruct (Hopen _ _ _ Hl) as (-> & x' & Hx' & Hx0' & Hkind').
      split; [done|]. exists x'. split; [|done].
      rewrite list_lookup_alter_ne; [done|].
      intros ->. apply Hne. by eapply Honce.
    + intros k1 k2 sp' a1 a2 H1 H2.
      apply lookup_delete_Some in H1 as [_ H1].
      apply lookup_delete_Some in H2 as [_ H2].
      by eapply Honce.
    + intros j y Hy. destruct (decide (sp = j)) as [->|Hne].
      * rewrite list_lookup_alter_eq, Hx in Hy. simpl in Hy. simplify_eq.
        rewrite end_count_add_calls, Hends, Hx0. lia.
      * rewrite list_lookup_alter_ne in Hy by done. by eapply Hmost.
  - split; simpl.
    + intros k sp' act Hl.
      destruct (Hopen _ _ _ Hl) as (-> & x & Hx & Hx0 & Hkind).
      split; [done|].
      destruct (decide (sp = sp')) as [->|Hne].
      * exists (add_calls cs x). rewrite list_lookup_alter_eq, Hx.
        split; [done|]. rewrite end_count_add_calls, Hcs, Hx0. done.
      * exists x. by rewrite list_lookup_alter_ne.
    + done.
    + intros j y Hy. destruct (decide (sp = j)) as [->|Hne].
      * rewrite list_lookup_alter_eq in Hy.
        destruct (spans s !! j) as [x|] eqn:Hx; simplify_eq/=.
        rewrite end_count_add_calls, Hcs. simpl. by eapply Hmost.
      * rewrite list_lookup_alter_ne in Hy by done. by eapply Hmost.
Qed.

Lemma consistent_init : consistent init.
Proof. split; simpl; intros *; by rewrite ?lookup_empty. Qed.

Lemma consistent_step e s : consistent s → consistent (step e s).
Proof. apply effect_consistent with e.1 (event_key e), step_effect. Qed.

Lemma run_app es1 es2 s : run (es1 ++ es2) s = run es2 (run es1 s).
Proof. apply foldl_app. Qed.

Lemma consistent_run es s : consistent s → consistent (run es s).
Proof.
  revert s. induction es as [|e es IH]; intros s Hs; [done|].
  simpl. by apply IH, consistent_step.
Qed.

Lemma ended_step_le e s j : ended s j ≤ ended (step e s) j.
Proof.
  unfold ended. destruct (spans s !! j) as [x|] eqn:Hx; simpl; [|lia].
  destruct (effect_extends _ _ _ _ j x (step_effect e s) Hx) as [cs ->].
  simpl. rewrite end_count_add_calls. lia.
Qed.

Lemma ended_run_le es s j : ended s j ≤ ended (run es s) j.
Proof.
  revert s. induction es as [|e es IH]; intros s; [done|].
  simpl. etrans; [apply (ended_step_le e)|apply IH].
Qed.

Lemma ended_le_1 s j : consistent s → ended s j ≤ 1.
Proof.
  intros Hs. unfold ended. destruct (spans s !! j) as [x|] eqn:Hx; simpl; [|lia].
  by eapply ended_at_most_once.
Qed.

Lemma returns_exec (m : M unit) s :
  returns m → m s = (Returned tt, exec m s).
Proof.
  intros Hm. destruct (Hm s) as ([] & s' & Heq). unfold exec. by rewrite Heq.
Qed.

Lemma failure_returns kw : returns (_trace_failure kw).
Proof.
  intros s. run_handler.
  destruct (kw_sender kw) as [t|], (kw_task_id kw) as [i|]; simpl; eauto.
  unfold retrieve_span.
  destruct (span_dict s !! (task_ident t, i, false)) as [[sp act]|]; eauto.
  destruct (kw_einfo kw) as [ex|]; eauto.
  destruct (expected_exception t ex); eauto.
Qed.

Lemma retry_returns kw : returns (_trace_retry kw).
Proof.
  intros s. run_handler.
  destruct (kw_sender kw) as [t|], (kw_request_id kw) as [i|],
    (kw_reason kw) as [r|]; simpl; eauto.
  unfold retrieve_span.
  destruct (span_dict s !! (task_ident t, i, false)) as [[sp act]|]; eauto.
Qed.

Lemma returns_none_failure kw s :
  _trace_failure kw s = (Returned tt, exec (_trace_failure kw) s).
Proof. apply returns_exec, failure_returns. Qed.

Lemma returns_none_retry kw s :
  _trace_retry kw s = (Returned tt, exec (_trace_retry kw) s).
Proof. apply returns_exec, retry_returns. Qed.

Lemma failure_unidentified kw s :
  identified trace_failure kw = false →
  ∃ msgs, exec (_trace_failure kw) s = logged msgs s.
Proof.
  unfold identified. intros Hid. run_handler.
  destruct (kw_sender kw), (kw_task_id kw); try done; simpl.
  - by exists [LogMissing "task_id"].
  - by exists [LogMissing "sender"].
  - by exists [LogMissing "task_id"; LogMissing "sender"].
Qed.

Lemma identified_failure kw :
  identified trace_failure kw = true →
  ∃ t i, kw_sender kw = Some t ∧ kw_task_id kw = Some i.
Proof.
  unfold identified.
  destruct (kw_sender kw) as [t|], (kw_task_id kw) as [i|]; try done. eauto.
Qed.

(** ** The failure handler *)

(** C8: without exception info the failure handler does nothing to any span
    and nothing to the table; when the task and the task id are there, it
    returns with the state as it found it, also when a span is attached. *)
Theorem failure_without_einfo_changes_nothing kw s :
  kw_einfo kw = None →
  spans (exec (_trace_failure kw) s) = spans s
  ∧ span_dict (exec (_trace_failure kw) s) = span_dict s
  ∧ (identified trace_failure kw = true → _trace_failure kw s = (Returned tt, s)).
Proof.
  intros Hex. destruct (identified trace_failure kw) eqn:Hid.
  - destruct (identified_failure kw Hid) as (t & i & Ht & Hi).
    assert (Hs : exec (_trace_failure kw) s = s).
    { destruct (span_dict s !! (task_ident t, i, false)) as [[sp act]|] eqn:Hsp.
      - rewrite (failure_found kw t i sp act) by done. by rewrite Hex.
      - by rewrite (failure_not_found kw t i). }
    rewrite returns_none_failure, Hs. done.
  - by destruct (failure_unidentified kw s Hid) as (msgs & ->).
Qed.

(** ** The retry handler *)

(** C3: for a retry signal with task, request id and reason, and a span
    attached for them, the handler makes one call on the span, which sets
    "celery.retry.reason" to [str(reason)]; the span is not ended and its
    context is not left, the span stays attached, and nothing else changes. *)
Theorem retry_sets_reason_and_keeps_span kw t i r sp act x s :
  kw_sender kw = Some t → kw_request_id kw = Some i → kw_reason kw = Some r →
  span_dict s !! (task_ident t, i, false) = Some (sp, act) →
  spans s !! sp = Some x →
  ∃ s' x', _trace_retry kw s = (Returned tt, s')
    ∧ spans s' !! sp = Some x'
    ∧ span_calls x'
      = SetAttribute "celery.retry.reason" (VStr (str_reason r)) :: span_calls x
    ∧ attribute "celery.retry.reason" x' = Some (VStr (str_reason r))
    ∧ end_count x' = end_count x
    ∧ span_dict s' = span_dict s
    ∧ span_dict s' !! (task_ident t, i, false) = Some (sp, act)
    ∧ (∀ j, j ≠ sp → spans s' !! j = spans s !! j)
    ∧ log s' = log s.
Proof.
  intros Ht Hi Hr Hsp Hx.
  exists (exec (_trace_retry kw) s),
    (record_call (SetAttribute _TASK_RETRY_REASON_KEY (VStr (str_reason r))) x).
  split; [apply returns_none_retry|].
  rewrite (retry_found kw t i r sp act) by done. simpl.
  rewrite list_lookup_alter_eq, Hx.
  repeat split; try done.
  intros j Hj. by rewrite list_lookup_alter_ne.
Qed.

(** ** Signals without the expected identifiers *)

(** C4: when the task, the task id or (for a retry) the reason is missing
    from the keyword arguments, each of the six handlers logs and returns:
    no span is started, and no span and no entry of the table changes. *)
Theorem unidentified_signal_is_logged_and_ignored h kw s :
  identified h kw = false →
  ∃ s' msgs, handler context_attributes h kw s = (Returned tt, s')
    ∧ msgs ≠ []
    ∧ log s' = msgs ++ log s
    ∧ spans s' = spans s
    ∧ span_dict s' = span_dict s.
Proof.
  intros Hid. destruct (handler_unidentified h kw s Hid) as (msgs & Hne & Heq).
  by exists (logged msgs s), msgs.
Qed.

(** ** Which spans are started, and how they are named *)

Lemma effect_length s h ko s' :
  opens h = false → effect s h ko s' → length (spans s') = length (spans s).
Proof.
  intros Hh Heff. destruct Heff; simpl; try done.
  - congruence.
  - by rewrite !length_alter.
  - by rewrite length_alter.
Qed.

Lemma started_span o (l : list Span) x :
  ∃ x', finalized o (l ++ [x]) !! length l = Some x'
    ∧ length (finalized o (l ++ [x])) = S (length l)
    ∧ span_kind x' = span_kind x ∧ span_name x' = span_name x.
Proof.
  destruct (lookup_finalized o (l ++ [x]) (length l) x) as [cs Hcs];
    [by apply list_lookup_middle|].
  exists (add_calls cs x). split; [done|].
  rewrite length_finalized, length_app. simpl. split; [lia|done].
Qed.

Lemma run_extends es s j x :
  spans s !! j = Some x →
  ∃ cs, spans (run es s) !! j = Some (add_calls cs x).
Proof.
  revert s x. induction es as [|e es IH]; intros s x Hx; simpl.
  - exists []. by rewrite add_calls_nil.
  - destruct (effect_extends _ _ _ _ j x (step_effect e s) Hx) as [cs1 H1].
    destruct (IH _ _ H1) as [cs2 H2].
    exists (cs2 ++ cs1). by rewrite H2, add_calls_add_calls.
Qed.

(** C10: the prerun handler starts one span, of kind CONSUMER and with the
    name of the task, and the before-publish handler one of kind PRODUCER
    and with the name of the task; a handler that lacks its identifiers, and
    each of the four other handlers, starts none; and a span keeps its name
    and kind whatever signals follow. *)
Theorem spans_started_by_prerun_and_before_publish kw s :
  (∀ t i, kw_task kw = Some t → kw_task_id kw = Some i →
     ∃ x, spans (exec (_trace_prerun kw) s) !! length (spans s) = Some x
       ∧ length (spans (exec (_trace_prerun kw) s)) = S (length (spans s))
       ∧ span_kind x = CONSUMER ∧ span_name x = name t)
  ∧ (∀ t i, kw_sender kw = Some t → kw_message_id kw = Some i →
     ∃ x, spans (exec (before_publish kw) s) !! length (spans s) = Some x
       ∧ length (spans (exec (before_publish kw) s)) = S (length (spans s))
       ∧ span_kind x = PRODUCER ∧ span_name x = name t)
  ∧ (∀ h, identified h kw = false ∨ opens h = false →
     length (spans (step (h, kw) s)) = length (spans s))
  ∧ (∀ later j x, spans s !! j = Some x →
     ∃ x', spans (run later s) !! j = Some x'
       ∧ span_kind x' = span_kind x ∧ span_name x' = span_name x).
Proof.
  repeat split.
  - intros t i Ht Hi. rewrite (prerun_present kw t i) by done. simpl.
    apply started_span.
  - intros t i Ht Hi. rewrite (before_publish_present kw t i) by done.
    simpl. apply started_span.
  - intros h [Hid|Hh].
    + by destruct (step_unidentified h kw s Hid) as (msgs & ->).
    + apply (effect_length _ h (event_key (h, kw))); [done|].
      apply (step_effect (h, kw)).
  - intros later j x Hx. destruct (run_extends later s j x Hx) as [cs ->].
    eauto.
Qed.

(** ** The attributes that are recorded *)

Lemma attribute_in_app key cs1 cs2 :
  attribute_in key (cs1 ++ cs2)
  = match attribute_in key cs1 with
    | Some v => Some v
    | None => attribute_in key cs2
    end.
Proof.
  induction cs1 as [|c cs1 IH]; [done|].
  destruct c; simpl; try done. by case_decide.
Qed.

Lemma attribute_in_attribute_calls key kvs :
  key ∉ keys kvs → attribute_in key (attribute_calls kvs) = None.
Proof.
  unfold keys, attribute_calls. induction kvs as [|[k v] rest IH]; [done|].
  simpl. intros Hk. apply not_elem_of_cons in Hk as [Hne Hk].
  rewrite reverse_cons, attribute_in_app, IH by done. simpl.
  by rewrite decide_False.
Qed.

Lemma attribute_add_exit_calls key act x :
  attribute key (add_calls (exit_calls act) x) = attribute key x.
Proof. unfold attribute, exit_calls. by destruct (act_end_on_exit act). Qed.

Lemma started_calls o (l : list Span) x :
  ∃ cs, finalized o (l ++ [x]) !! length l = Some (add_calls cs x)
    ∧ (cs = [] ∨ ∃ a, cs = exit_calls a).
Proof.
  destruct o as [[sp a]|]; simpl.
  - destruct (decide (act_span a = length l)) as [->|Hne].
    + exists (exit_calls a). rewrite list_lookup_alter_eq.
      rewrite list_lookup_middle by done. eauto.
    + exists []. rewrite list_lookup_alter_ne by done.
      rewrite list_lookup_middle by done. by rewrite add_calls_nil; eauto.
  - exists []. rewrite list_lookup_middle by done.
    by rewrite add_calls_nil; eauto.
Qed.

(** C6, as the code has it: the span of a publication is given
    "celery.action" = "apply_async",
    "messaging.message_id" = the task id of the message and
    "celery.task_name" = the name of the task, and then the attributes of the
    context; the span of a run is given "celery.action" = "run", then the
    attributes of the two contexts, then "celery.task_name" = the name of the
    task.  Each of these attributes has that value in the end, provided the
    attributes taken from the contexts are not recorded under its key
    afterwards; this cannot happen to the task name of a run, which is set
    last.  ([cs] stands for what may be called on the span later in the
    call, which is no attribute.) *)
Theorem recorded_attributes_match_the_signal kw t i s :
  (kw_sender kw = Some t → kw_message_id kw = Some i →
   ∃ x cs, spans (exec (before_publish kw) s) !! length (spans s) = Some x
     ∧ Forall (λ c, is_set_attribute c = false) cs
     ∧ span_calls x
       = cs ++ Activate
         :: attribute_calls (context_attributes (kw_fields kw))
         ++ [SetAttribute "celery.task_name" (VStr (name t));
             SetAttribute "messaging.message_id" (VStr i);
             SetAttribute "celery.action" (VStr "apply_async")]
     ∧ ∀ key value,
         (key, value) ∈ [("celery.action", VStr "apply_async");
                         ("messaging.message_id", VStr i);
                         ("celery.task_name", VStr (name t))] →
         key ∉ keys (context_attributes (kw_fields kw)) →
         attribute key x = Some value)
  ∧ (∀ sp act x0,
       kw_task kw = Some t → kw_task_id kw = Some i →
       span_dict s !! (task_ident t, i, false) = Some (sp, act) →
       spans s !! sp = Some x0 →
       ∃ x, spans (exec (postrun kw) s) !! sp = Some x
         ∧ attribute "celery.task_name" x = Some (VStr (name t))
         ∧ SetAttribute "celery.action" (VStr "run") ∈ span_calls x
         ∧ ("celery.action" ∉ keys (context_attributes (kw_fields kw)) →
            "celery.action" ∉ keys (context_attributes (request t)) →
            attribute "celery.action" x = Some (VStr "run"))).
Proof.
  split.
  - intros Ht Hi. rewrite (before_publish_present kw t i) by done. simpl.
    destruct (started_calls (span_dict s !! (task_ident t, i, true)) (spans s)
                {| span_name := name t; span_kind := PRODUCER;
                   span_calls := before_publish_calls context_attributes kw t i |})
      as (cs & Hcs & Hshape).
    eexists _, cs. split; [exact Hcs|].
    assert (Hplain : Forall (λ c, is_set_attribute c = false) cs).
    { destruct Hshape as [->|[a ->]]; [constructor|].
      unfold exit_calls. destruct (act_end_on_exit a); by repeat constructor. }
    split; [done|]. split; [done|].
    intros key value Hin Hkey.
    assert (Hattr : attribute key
                      (add_calls cs
                         {| span_name := name t; span_kind := PRODUCER;
                            span_calls :=
                              before_publish_calls context_attributes kw t i |})
                    = attribute_in key
                        (before_publish_calls context_attributes kw t i)).
    { destruct Hshape as [->|[a ->]]; [done|].
      by rewrite attribute_add_exit_calls. }
    rewrite Hattr. unfold before_publish_calls. simpl.
    rewrite attribute_in_app, attribute_in_attribute_calls by done.
    rewrite !elem_of_cons, elem_of_nil in Hin.
    destruct Hin as [Heq|[Heq|[Heq|[]]]]; by simplify_eq.
  - intros sp act x0 Ht Hi Hsp Hx0.
    rewrite (postrun_found kw t i sp act) by done. simpl.
    set (x1 := add_calls (postrun_calls context_attributes kw t) x0).
    assert (H1 : attribute "celery.task_name" x1 = Some (VStr (name t))) by done.
    assert (H2 : SetAttribute "celery.action" (VStr "run") ∈ span_calls x1).
    { unfold x1, postrun_calls. simpl. rewrite !app_assoc.
      apply elem_of_cons. right. apply elem_of_app. left.
      apply elem_of_app. right. by left. }
    assert (H3 : "celery.action" ∉ keys (context_attributes (kw_fields kw)) →
                 "celery.action" ∉ keys (context_attributes (request t)) →
                 attribute "celery.action" x1 = Some (VStr "run")).
    { intros Hk1 Hk2. unfold x1, attribute, postrun_calls. simpl.
      rewrite <- !app_assoc, !attribute_in_app.
      by rewrite !attribute_in_attribute_calls. }
    destruct (decide (act_span act = sp)) as [->|Hne].
    + exists (add_calls (exit_calls act) x1).
      rewrite !list_lookup_alter_eq, Hx0. simpl.
      rewrite !attribute_add_exit_calls. repeat split; try done.
      apply elem_of_app. by right.
    + exists x1. rewrite list_lookup_alter_ne by done.
      by rewrite list_lookup_alter_eq, Hx0.
Qed.

(** ** Failures the task declares *)

Lemma isinstance_spec e classes :
  isinstance e classes = true
  ↔ ∃ c, c ∈ classes ∧ c ∈ cls_name (exc_class e) :: cls_bases (exc_class e).
Proof.
  unfold isinstance. rewrite existsb_exists. split.
  - intros (c & Hin & Hc). exists c. split; [by apply list_elem_of_In|].
    by apply bool_decide_eq_true in Hc.
  - intros (c & Hin & Hc). exists c. split; [by apply list_elem_of_In|].
    by apply bool_decide_eq_true.
Qed.

Lemma expected_exception_spec t ex :
  expected_exception t ex = true ↔ declared t ex.
Proof.
  unfold expected_exception, declared.
  destruct (throws t) as [classes|].
  - rewrite isinstance_spec. split.
    + intros (c & ? & ?). by exists classes, c.
    + intros (classes' & c & ? & ? & ?). simplify_eq. by exists c.
  - split; [done|]. by intros (? & ? & ? & _).
Qed.

(** C2, as the code has it: for a failure signal with exception info, for a
    task with an attached span, the handler sets a status on the span,
    UNKNOWN with [str(einfo)] as description, if and only if the exception
    is not an instance of a class in the [throws] of the task; if it is an
    instance of one, be it through a class it inherits from, the handler
    returns with the state as it found it. *)
Theorem failure_sets_status_unless_declared kw t i sp act ex x s :
  kw_sender kw = Some t → kw_task_id kw = Some i →
  span_dict s !! (task_ident t, i, false) = Some (sp, act) →
  spans s !! sp = Some x →
  kw_einfo kw = Some ex →
  (¬ declared t ex →
   ∃ x', spans (exec (_trace_failure kw) s) !! sp = Some x'
     ∧ span_calls x'
       = SetStatus {| canonical_code := UNKNOWN; description := Some (einfo_str ex) |}
         :: span_calls x
     ∧ status x'
       = Some {| canonical_code := UNKNOWN; description := Some (einfo_str ex) |})
  ∧ (declared t ex → _trace_failure kw s = (Returned tt, s)).
Proof.
  intros Ht Hi Hsp Hx Hex.
  rewrite returns_none_failure, (failure_found kw t i sp act) by done.
  rewrite Hex.
  rewrite <- expected_exception_spec.
  destruct (expected_exception t ex); split; try done.
  intros _. simpl. rewrite list_lookup_alter_eq, Hx. simpl. eauto.
Qed.


(** ** Connecting and disconnecting *)

Lemma remove_first_snoc r l : r ∉ l → remove_first r (l ++ [r]) = l.
Proof.
  induction l as [|y l IH]; simpl; intros Hr.
  - by rewrite decide_True.
  - apply not_elem_of_cons in Hr as [Hne Hr].
    rewrite decide_False by done. by rewrite IH.
Qed.

Lemma connect_own sig h (reg reg' : Registry) (extra : Signal → list Receiver) :
  (∀ sig', reg' sig' = reg sig' ++ extra sig') →
  Own h ∉ reg sig → Own h ∉ extra sig →
  ∀ sig', connect sig (Own h) reg' sig'
          = reg sig' ++ (extra sig' ++ if decide (sig' = sig) then [Own h] else []).
Proof.
  intros Hreg' Hreg Hextra sig'. unfold connect.
  destruct (decide (sig' = sig)) as [->|Hne].
  - rewrite decide_False.
    + by rewrite Hreg', app_assoc.
    + rewrite Hreg', elem_of_app. tauto.
  - by rewrite Hreg', app_nil_r.
Qed.

Lemma disconnect_own sig h (reg reg' : Registry) (extra : Signal → list Receiver) :
  (∀ sig', reg' sig' = reg sig' ++ extra sig') →
  Own h ∉ reg sig → extra sig = [Own h] →
  ∀ sig', disconnect sig (Own h) reg' sig'
          = reg sig' ++ (if decide (sig' = sig) then [] else extra sig').
Proof.
  intros Hreg' Hreg Hextra sig'. unfold disconnect.
  destruct (decide (sig' = sig)) as [->|Hne].
  - rewrite Hreg', Hextra, app_nil_r. by apply remove_first_snoc.
  - apply Hreg'.
Qed.

Lemma instrument_own reg :
  (∀ sig h, Own h ∉ reg sig) →
  ∀ sig, _instrument reg sig = reg sig ++ own_receivers sig.
Proof.
  intros Hno sig. unfold _instrument.
  assert (H0 : ∀ sig', reg sig' = reg sig' ++ (λ _, []) sig').
  { intros sig'. by rewrite app_nil_r. }
  pose proof (connect_own task_prerun trace_prerun reg _ _ H0
                (Hno _ _) ltac:(set_solver)) as H1.
  pose proof (connect_own task_postrun trace_postrun reg _ _ H1
                (Hno _ _) ltac:(by vm_compute; set_solver)) as H2.
  pose proof (connect_own before_task_publish trace_before_publish reg _ _ H2
                (Hno _ _) ltac:(by vm_compute; set_solver)) as H3.
  pose proof (connect_own after_task_publish trace_after_publish reg _ _ H3
                (Hno _ _) ltac:(by vm_compute; set_solver)) as H4.
  pose proof (connect_own task_failure trace_failure reg _ _ H4
                (Hno _ _) ltac:(by vm_compute; set_solver)) as H5.
  pose proof (connect_own task_retry trace_retry reg _ _ H5
                (Hno _ _) ltac:(by vm_compute; set_solver)) as H6.
  rewrite H6. f_equal. by destruct sig.
Qed.

Lemma uninstrument_own (reg reg' : Registry) :
  (∀ sig h, Own h ∉ reg sig) →
  (∀ sig, reg' sig = reg sig ++ own_receivers sig) →
  ∀ sig, _uninstrument reg' sig = reg sig.
Proof.
  intros Hno H0 sig. unfold _uninstrument.
  pose proof (disconnect_own task_prerun trace_prerun reg _ _ H0
                (Hno _ _) eq_refl) as H1.
  pose proof (disconnect_own task_postrun trace_postrun reg _ _ H1
                (Hno _ _) eq_refl) as H2.
  pose proof (disconnect_own before_task_publish trace_before_publish reg _ _ H2
                (Hno _ _) eq_refl) as H3.
  pose proof (disconnect_own after_task_publish trace_after_publish reg _ _ H3
                (Hno _ _) eq_refl) as H4.
  pose proof (disconnect_own task_failure trace_failure reg _ _ H4
                (Hno _ _) eq_refl) as H5.
  pose proof (disconnect_own task_retry trace_retry reg _ _ H5
                (Hno _ _) eq_refl) as H6.
  rewrite H6. destruct sig; apply app_nil_r.
Qed.

(** C5: in a registry where no handler of the instrumentor is connected,
    [_instrument] connects one handler to each of the six signals
    task_prerun, task_postrun, before_task_publish, after_task_publish,
    task_failure and task_retry, and nothing to any other signal;
    [_uninstrument] then disconnects these six, which leaves what was
    connected before and no handler of the instrumentor. *)
Theorem instrument_connects_six_and_uninstrument_disconnects_them reg :
  (∀ sig r, r ∈ reg sig → is_own r = false) →
  (∀ sig, _instrument reg sig = reg sig ++ own_receivers sig)
  ∧ (∀ sig, _uninstrument (_instrument reg) sig = reg sig)
  ∧ (∀ sig r, r ∈ _uninstrument (_instrument reg) sig → is_own r = false).
Proof.
  intros Hreg.
  assert (Hno : ∀ sig h, Own h ∉ reg sig).
  { intros sig h Hin. by apply Hreg in Hin. }
  pose proof (instrument_own reg Hno) as Hin.
  pose proof (uninstrument_own reg _ Hno Hin) as Hun.
  split; [done|]. split; [done|].
  intros sig r. rewrite Hun. apply Hreg.
Qed.

(** ** A span is opened once and closed once *)

Lemma opener_step b kw tid i s :
  event_key (opener b, kw) = Some (tid, i, b) →
  ∃ nm cs l, ends cs = 0
    ∧ step (opener b, kw) s
      = {| spans := finalized (span_dict s !! (tid, i, b))
                      (spans s ++ [ {| span_name := nm;
                                       span_kind := kind_of_direction b;
                                       span_calls := cs |} ]);
           span_dict := <[(tid, i, b) :=
                            (length (spans s),
                             {| act_span := length (spans s);
                                act_end_on_exit := true |})]> (span_dict s);
           log := l |}.
Proof.
  unfold event_key. destruct b; cbn [opener fst snd].
  - destruct (kw_sender kw) as [t|] eqn:Ht, (kw_message_id kw) as [i'|] eqn:Hi;
      intros [= <- <-].
    change (step (trace_before_publish, kw) s) with (exec (before_publish kw) s).
    rewrite (before_publish_present kw t i') by done.
    do 3 eexists. split; [|done]. apply ends_before_publish_calls.
  - destruct (kw_task kw) as [t|] eqn:Ht, (kw_task_id kw) as [i'|] eqn:Hi;
      intros [= <- <-].
    change (step (trace_prerun, kw) s) with (exec (_trace_prerun kw) s).
    rewrite (prerun_present kw t i') by done.
    by exists (name t), [Activate], (LogDebug "prerun signal start task_id=%s" i' :: log s).
Qed.

Lemma closer_step b kw tid i sp s :
  event_key (closer b, kw) = Some (tid, i, b) →
  span_dict s !! (tid, i, b)
  = Some (sp, {| act_span := sp; act_end_on_exit := true |}) →
  ∃ cs l, ends cs = 0
    ∧ step (closer b, kw) s
      = {| spans := alter (add_calls (End :: Deactivate :: cs)) sp (spans s);
           span_dict := delete (tid, i, b) (span_dict s);
           log := l |}.
Proof.
  unfold event_key. destruct b; cbn [closer fst snd].
  - destruct (kw_sender kw) as [t|] eqn:Ht, (kw_message_id kw) as [i'|] eqn:Hi;
      intros [= <- <-] Hsp.
    change (step (trace_after_publish, kw) s)
      with (exec (_trace_after_publish kw) s).
    rewrite (after_publish_found kw t i' sp _) by done.
    exists [], (log s). done.
  - destruct (kw_task kw) as [t|] eqn:Ht, (kw_task_id kw) as [i'|] eqn:Hi;
      intros [= <- <-] Hsp.
    change (step (trace_postrun, kw) s) with (exec (postrun kw) s).
    rewrite (postrun_found kw t i' sp _) by done.
    do 2 eexists. split; [apply (ends_postrun_calls kw t)|].
    simpl. by rewrite alter_add_calls.
Qed.

Lemma ended_alter_add_calls cs i j (l : list Span) :
  ends cs = 0 →
  from_option end_count 0 (alter (add_calls cs) i l !! j)
  = from_option end_count 0 (l !! j).
Proof.
  intros Hcs. destruct (decide (i = j)) as [->|Hne].
  - rewrite list_lookup_alter_eq. destruct (l !! j) as [x|]; [|done].
    simpl. by rewrite end_count_add_calls, Hcs.
  - by rewrite list_lookup_alter_ne.
Qed.

Lemma ended_snoc (l : list Span) x j :
  end_count x = 0 →
  from_option end_count 0 ((l ++ [x]) !! j) = from_option end_count 0 (l !! j).
Proof.
  intros Hx. destruct (l !! j) as [y|] eqn:Hy.
  - by rewrite (lookup_app_l_Some _ _ _ _ Hy).
  - apply lookup_ge_None in Hy. rewrite lookup_app_r by done.
    by destruct (j - length l) as [|n].
Qed.

(** The span that a call has started, in a state where the table and the
    spans fit together. *)
Lemma finalized_new s k x :
  consistent s →
  finalized (span_dict s !! k) (spans s ++ [x]) !! length (spans s) = Some x.
Proof.
  intros Hs. rewrite lookup_finalized_ne; [by apply list_lookup_middle|].
  intros sp a Hk. destruct (attached_open s Hs _ _ _ Hk) as (-> & y & Hy & _).
  simpl. apply lookup_lt_Some in Hy. lia.
Qed.

(** A handler that does not close ends no span, unless it starts a span for
    a key under which one is attached. *)
Lemma effect_ended s h ko s' j :
  closes h = false → effect s h ko s' →
  (∀ k, ko = Some k → span_dict s !! k = None) →
  ended s' j = ended s j.
Proof.
  intros Hh Heff Hnone. unfold ended. destruct Heff; simpl; try done.
  - rewrite (Hnone (t, i, b)) by done. simpl. by apply ended_snoc.
  - congruence.
  - by apply ended_alter_add_calls.
Qed.

(** A handler that closes ends no span of the other direction. *)
Lemma effect_ended_other_kind s h ko s' j x :
  consistent s → effect s h ko s' →
  spans s !! j = Some x →
  (∀ k, ko = Some k → kind_of_direction k.2 ≠ span_kind x) →
  ended s' j = ended s j.
Proof.
  intros Hs Heff Hx Hkind. unfold ended.
  destruct Heff as [ko | ko msgs | nm b cs t i l _ Hcs
                   | k sp act cs l _ Hlook Hcs | ko sp cs l Hcs]; simpl; try done.
  - rewrite lookup_finalized_ne; [by apply ended_snoc|].
    intros sp a Hlook.
    destruct (attached_open s Hs _ _ _ Hlook) as (-> & y & Hy & _ & Hky). simpl.
    intros ->. simplify_eq. by apply (Hkind (t, i, b)).
  - destruct (attached_open s Hs _ _ _ Hlook) as (-> & y & Hy & _ & Hky). simpl.
    assert (sp ≠ j) as Hne.
    { intros ->. simplify_eq. by apply (Hkind k). }
    by rewrite !list_lookup_alter_ne.
  - by apply ended_alter_add_calls.
Qed.

Lemma run_keeps_attached es s k v :
  Forall (λ e, event_key e ≠ Some k) es →
  span_dict s !! k = Some v → span_dict (run es s) !! k = Some v.
Proof.
  revert s. induction es as [|e es IH]; intros s Hes Hk; [done|].
  apply Forall_cons in Hes as [He Hes]. simpl. apply IH; [done|].
  by rewrite (effect_dict _ _ _ _ k (step_effect e s) He).
Qed.

Lemma opened_closed_once b history kw_open between kw_close after tid i :
  event_key (opener b, kw_open) = Some (tid, i, b) →
  event_key (closer b, kw_close) = Some (tid, i, b) →
  Forall (λ e, event_key e ≠ Some (tid, i, b)) between →
  let s0 := run history init in
  let j := length (spans s0) in
  let s1 := step (opener b, kw_open) s0 in
  let s2 := run between s1 in
  let s3 := step (closer b, kw_close) s2 in
  length (spans s1) = S (length (spans s0))
  ∧ length (spans s3) = length (spans s2)
  ∧ ended s1 j = 0 ∧ ended s2 j = 0 ∧ ended s3 j = 1
  ∧ ended (run after s3) j = 1.
Proof.
  intros Hopen Hclose Hbetween s0 j s1 s2 s3.
  assert (Hs0 : consistent s0) by apply consistent_run, consistent_init.
  assert (Hs1 : consistent s1) by by apply consistent_step.
  assert (Hs2 : consistent s2) by by apply consistent_run.
  assert (Hs3 : consistent s3) by by apply consistent_step.
  destruct (opener_step b kw_open tid i s0 Hopen) as (nm & cs & l & Hcs & Heq1).
  fold s1 in Heq1.
  assert (Hk1 : span_dict s1 !! (tid, i, b)
                = Some (j, {| act_span := j; act_end_on_exit := true |})).
  { rewrite Heq1. simpl. apply lookup_insert_eq. }
  assert (Hk2 : span_dict s2 !! (tid, i, b)
                = Some (j, {| act_span := j; act_end_on_exit := true |})).
  { by apply run_keeps_attached. }
  destruct (attached_open s2 Hs2 _ _ _ Hk2) as (_ & x & Hx & Hx0 & _).
  destruct (closer_step b kw_close tid i j s2 Hclose Hk2)
    as (cs' & l' & Hcs' & Heq3).
  fold s3 in Heq3.
  assert (H3 : ended s3 j = 1).
  { unfold ended. rewrite Heq3. simpl. rewrite list_lookup_alter_eq, Hx. simpl.
    rewrite end_count_add_calls, Hx0.
    change (End :: Deactivate :: cs') with ([End; Deactivate] ++ cs').
    by rewrite ends_app, Hcs'. }
  repeat split.
  - rewrite Heq1. simpl. rewrite length_finalized, length_app. simpl. lia.
  - rewrite Heq3. simpl. apply length_alter.
  - unfold ended, j. rewrite Heq1. simpl. by rewrite finalized_new.
  - unfold ended. by rewrite Hx.
  - done.
  - apply Nat.le_antisymm.
    + by apply ended_le_1, consistent_run.
    + rewrite <- H3. apply ended_run_le.
Qed.

(** C1, as the code has it: whatever signals came before, the prerun handler
    of a task and task id opens one span, and the postrun handler of the same
    task and task id, with no other prerun or postrun signal of them in
    between, closes that span: it was not ended before, it is ended once
    then, and it is ended once whatever signals follow.  The same holds of
    the before-publish and after-publish handlers.  The failure and retry
    handlers end no span, and the prerun and before-publish handlers end none
    when no span is attached for their task and task id. *)
Theorem span_opened_once_and_closed_once history between after :
  (∀ kw_pre kw_post t t' i,
     kw_task kw_pre = Some t → kw_task_id kw_pre = Some i →
     kw_task kw_post = Some t' → task_ident t' = task_ident t →
     kw_task_id kw_post = Some i →
     Forall (λ e, event_key e ≠ Some (task_ident t, i, false)) between →
     let s0 := run history init in
     let j := length (spans s0) in
     let s1 := step (trace_prerun, kw_pre) s0 in
     let s2 := run between s1 in
     let s3 := step (trace_postrun, kw_post) s2 in
     length (spans s1) = S (length (spans s0))
     ∧ length (spans s3) = length (spans s2)
     ∧ ended s1 j = 0 ∧ ended s2 j = 0 ∧ ended s3 j = 1
     ∧ ended (run after s3) j = 1)
  ∧ (∀ kw_before kw_after t t' i,
     kw_sender kw_before = Some t → kw_message_id kw_before = Some i →
     kw_sender kw_after = Some t' → task_ident t' = task_ident t →
     kw_message_id kw_after = Some i →
     Forall (λ e, event_key e ≠ Some (task_ident t, i, true)) between →
     let s0 := run history init in
     let j := length (spans s0) in
     let s1 := step (trace_before_publish, kw_before) s0 in
     let s2 := run between s1 in
     let s3 := step (trace_after_publish, kw_after) s2 in
     length (spans s1) = S (length (spans s0))
     ∧ length (spans s3) = length (spans s2)
     ∧ ended s1 j = 0 ∧ ended s2 j = 0 ∧ ended s3 j = 1
     ∧ ended (run after s3) j = 1)
  ∧ (∀ s h kw j,
       closes h = false →
       (∀ k, event_key (h, kw) = Some k → span_dict s !! k = None) →
       ended (step (h, kw) s) j = ended s j).
Proof.
  split; [|split].
  - intros kw_pre kw_post t t' i Ht Hi Ht' Hident Hi' Hbetween.
    apply (opened_closed_once false history kw_pre between kw_post after
             (task_ident t) i); [| |done].
    + unfold event_key. simpl. by rewrite Ht, Hi.
    + unfold event_key. simpl. by rewrite Ht', Hi', Hident.
  - intros kw_before kw_after t t' i Ht Hi Ht' Hident Hi' Hbetween.
    apply (opened_closed_once true history kw_before between kw_after after
             (task_ident t) i); [| |done].
    + unfold event_key. simpl. by rewrite Ht, Hi.
    + unfold event_key. simpl. by rewrite Ht', Hi', Hident.
  - intros s h kw j Hh Hnone.
    apply (effect_ended s h (event_key (h, kw))); [done| |done].
    apply (step_effect (h, kw)).
Qed.

(** ** The two directions are kept apart *)

Lemma event_key_closer b kw k : event_key (closer b, kw) = Some k → k.2 = b.
Proof.
  unfold event_key. destruct b; cbn [closer fst snd].
  - destruct (kw_sender kw), (kw_message_id kw); by intros [= <-].
  - destruct (kw_task kw), (kw_task_id kw); by intros [= <-].
Qed.

Lemma kept_apart b history kw later kw' tid i :
  event_key (opener b, kw) = Some (tid, i, b) →
  let s0 := run history init in
  let j := length (spans s0) in
  let s1 := step (opener b, kw) s0 in
  let s := run later s1 in
  span_dict s1 !! (tid, i, b)
  = Some (j, {| act_span := j; act_end_on_exit := true |})
  ∧ span_dict s1 !! (tid, i, negb b) = span_dict s0 !! (tid, i, negb b)
  ∧ ended (step (closer (negb b), kw') s) j = ended s j.
Proof.
  intros Hopen s0 j s1 s.
  assert (Hs : consistent s).
  { apply consistent_run, consistent_step, consistent_run, consistent_init. }
  destruct (opener_step b kw tid i s0 Hopen) as (nm & cs & l & Hcs & Heq1).
  fold s1 in Heq1.
  assert (Hj : ∃ x, spans s !! j = Some x ∧ span_kind x = kind_of_direction b).
  { destruct (run_extends later s1 j
                {| span_name := nm; span_kind := kind_of_direction b;
                   span_calls := cs |}) as [cs' Hx].
    - rewrite Heq1. simpl. apply finalized_new.
      apply consistent_run, consistent_init.
    - eauto. }
  destruct Hj as (x & Hx & Hkind).
  split; [|split].
  - rewrite Heq1. simpl. apply lookup_insert_eq.
  - rewrite Heq1. simpl. apply lookup_insert_ne. by destruct b.
  - apply (effect_ended_other_kind s (closer (negb b))
             (event_key (closer (negb b), kw')) _ j x); [done| |done|].
    + apply (step_effect (closer (negb b), kw')).
    + intros k Hk. apply event_key_closer in Hk. rewrite Hk, Hkind.
      by destruct b.
Qed.

(** C9: the span of a publication is stored under the key of the task, the
    task id and the publish direction, which leaves the entry of the run
    direction as it was, and the span of a run under the key with the run
    direction, which leaves the entry of the publish direction as it was.
    So, whatever signals came before and came since, the postrun handler,
    for whatever task and task id, does not end a span that the
    before-publish handler opened, and the after-publish handler does not
    end a span that the prerun handler opened. *)
Theorem publish_and_run_spans_are_kept_apart history kw later kw' :
  (∀ t i, kw_sender kw = Some t → kw_message_id kw = Some i →
     let s0 := run history init in
     let j := length (spans s0) in
     let s1 := step (trace_before_publish, kw) s0 in
     let s := run later s1 in
     span_dict s1 !! (task_ident t, i, true)
     = Some (j, {| act_span := j; act_end_on_exit := true |})
     ∧ span_dict s1 !! (task_ident t, i, false)
       = span_dict s0 !! (task_ident t, i, false)
     ∧ ended (step (trace_postrun, kw') s) j = ended s j)
  ∧ (∀ t i, kw_task kw = Some t → kw_task_id kw = Some i →
     let s0 := run history init in
     let j := length (spans s0) in
     let s1 := step (trace_prerun, kw) s0 in
     let s := run later s1 in
     span_dict s1 !! (task_ident t, i, false)
     = Some (j, {| act_span := j; act_end_on_exit := true |})
     ∧ span_dict s1 !! (task_ident t, i, true)
       = span_dict s0 !! (task_ident t, i, true)
     ∧ ended (step (trace_after_publish, kw') s) j = ended s j).
Proof.
  split.
  - intros t i Ht Hi.
    apply (kept_apart true history kw later kw' (task_ident t) i).
    unfold event_key. simpl. by rewrite Ht, Hi.
  - intros t i Ht Hi.
    apply (kept_apart false history kw later kw' (task_ident t) i).
    unfold event_key. simpl. by rewrite Ht, Hi.
Qed.

End Properties.

(** * The theorems at work on an example *)

Import Example.

(** With nothing connected before, the six handlers are all there is after
    [_instrument], and nothing is left after [_uninstrument]. *)
Example instrument_from_nothing sig :
  _instrument no_receivers sig = own_receivers sig
  ∧ _uninstrument (_instrument no_receivers) sig = [].
Proof. by destruct sig. Qed.

(** A publication and a run of the task, with a retry and two failures on
    the way: both spans are ended once and nothing stays attached. *)
Example lifecycle :
  let s := calls prefixed
             [(trace_before_publish, publish_signal);
              (trace_after_publish, publish_signal);
              (trace_prerun, run_signal);
              (trace_retry, retry_signal);
              (trace_failure, failure_signal (Some missing_key));
              (trace_failure, failure_signal (Some value_error));
              (trace_postrun, run_signal)] init in
  length (spans s) = 2 ∧ ended s 0 = 1 ∧ ended s 1 = 1 ∧ span_dict s = ∅
  ∧ status <$> spans s
    = [Some {| canonical_code := OK; description := None |};
       Some {| canonical_code := UNKNOWN;
               description := Some (einfo_str value_error) |}].
Proof. vm_compute. done. Qed.

Lemma span_opened_once_and_closed_once_witness :
  let s1 := call prefixed (trace_prerun, run_signal) init in
  let s2 := calls prefixed [(trace_failure, failure_signal (Some value_error));
                            (trace_before_publish, publish_signal)] s1 in
  let s3 := call prefixed (trace_postrun, run_signal) s2 in
  length (spans s1) = 1
  ∧ length (spans s3) = length (spans s2)
  ∧ ended s1 0 = 0 ∧ ended s2 0 = 0 ∧ ended s3 0 = 1
  ∧ ended (calls prefixed [(trace_postrun, run_signal)] s3) 0 = 1.
Proof.
  apply (proj1 (span_opened_once_and_closed_once prefixed []
                  [(trace_failure, failure_signal (Some value_error));
                   (trace_before_publish, publish_signal)]
                  [(trace_postrun, run_signal)])
           run_signal run_signal add_task add_task "7f3a"); try reflexivity.
  repeat constructor; vm_compute; discriminate.
Defined.

(** A second prerun signal for a task and task id whose span is attached:
    the prerun handler is not one of the two that close, and yet the span
    that was attached, which was not ended, is ended by the call; its
    activation is finalized when the new one takes its place in the table. *)
Lemma prerun_for_an_attached_key_ends_a_span :
  closes trace_prerun = false
  ∧ span_dict running !! (1, "7f3a", false) = Some (0, run_activation)
  ∧ ended running 0 = 0
  ∧ ended (call prefixed (trace_prerun, run_signal) running) 0 = 1.
Proof. repeat split; vm_compute; reflexivity. Qed.

(** A failure with a class that inherits from a class in [throws]: the class
    of the exception, MissingKey, is not in the [throws] of the task, which
    is (KeyError,), and a span is attached; yet the handler returns with the
    state as it was, and the span has no status. *)
Lemma failure_of_subclass_sets_no_status :
  let kw := failure_signal (Some missing_key) in
  kw_sender kw = Some add_task
  ∧ kw_task_id kw = Some "7f3a"
  ∧ kw_einfo kw = Some missing_key
  ∧ span_dict running !! (task_ident add_task, "7f3a", false) = Some (0, run_activation)
  ∧ spans running !! 0 = Some run_span
  ∧ throws add_task = Some ["KeyError"]
  ∧ (cls_name (exc_class (exception missing_key)) ∉ ["KeyError"])
  ∧ _trace_failure kw running = (Returned tt, running)
  ∧ status run_span = None.
Proof.
  repeat split; try (vm_compute; reflexivity).
  intros Hin. apply elem_of_cons in Hin as [Heq|Hin]; [discriminate|].
  by apply elem_of_nil in Hin.
Qed.

Lemma failure_sets_status_unless_declared_witness :
  (∃ x', spans (exec (_trace_failure (failure_signal (Some value_error))) running) !! 0
         = Some x'
     ∧ span_calls x'
       = SetStatus {| canonical_code := UNKNOWN;
                      description := Some (einfo_str value_error) |}
         :: span_calls run_span
     ∧ status x' = Some {| canonical_code := UNKNOWN;
                           description := Some (einfo_str value_error) |})
  ∧ _trace_failure (failure_signal (Some missing_key)) running = (Returned tt, running).
Proof.
  split.
  - apply (proj1 (failure_sets_status_unless_declared
                    (failure_signal (Some value_error)) add_task "7f3a" 0
                    run_activation value_error run_span running
                    eq_refl eq_refl eq_refl eq_refl eq_refl)).
    rewrite <- expected_exception_spec. vm_compute. discriminate.
  - apply (proj2 (failure_sets_status_unless_declared
                    (failure_signal (Some missing_key)) add_task "7f3a" 0
                    run_activation missing_key run_span running
                    eq_refl eq_refl eq_refl eq_refl eq_refl)).
    rewrite <- expected_exception_spec. vm_compute. reflexivity.
Defined.


Lemma retry_sets_reason_and_keeps_span_witness :
  ∃ s' x', _trace_retry retry_signal running = (Returned tt, s')
    ∧ spans s' !! 0 = Some x'
    ∧ span_calls x'
      = SetAttribute "celery.retry.reason" (VStr "Retry in 3s")
        :: span_calls run_span
    ∧ attribute "celery.retry.reason" x' = Some (VStr "Retry in 3s")
    ∧ end_count x' = end_count run_span
    ∧ span_dict s' = span_dict running
    ∧ span_dict s' !! (1, "7f3a", false) = Some (0, run_activation)
    ∧ (∀ j, j ≠ 0 → spans s' !! j = spans running !! j)
    ∧ log s' = log running.
Proof.
  apply (retry_sets_reason_and_keeps_span retry_signal add_task "7f3a"
           (ReasonObject "Retry in 3s") 0 run_activation run_span running);
    vm_compute; reflexivity.
Defined.

Lemma unidentified_signal_is_logged_and_ignored_witness :
  ∃ s' msgs, handler prefixed trace_retry nothing running = (Returned tt, s')
    ∧ msgs ≠ []
    ∧ log s' = msgs ++ log running
    ∧ spans s' = spans running
    ∧ span_dict s' = span_dict running.
Proof.
  apply (unidentified_signal_is_logged_and_ignored prefixed trace_retry
           nothing running).
  reflexivity.
Defined.

Lemma failure_without_einfo_changes_nothing_witness :
  spans (exec (_trace_failure (failure_signal None)) running) = spans running
  ∧ span_dict (exec (_trace_failure (failure_signal None)) running)
    = span_dict running
  ∧ _trace_failure (failure_signal None) running = (Returned tt, running).
Proof.
  destruct (failure_without_einfo_changes_nothing (failure_signal None) running
              eq_refl) as (Hspans & Hdict & Hsame).
  split; [exact Hspans|]. split; [exact Hdict|]. apply Hsame. reflexivity.
Defined.

Lemma instrument_connects_six_and_uninstrument_disconnects_them_witness :
  (∀ sig, _instrument application sig = application sig ++ own_receivers sig)
  ∧ (∀ sig, _uninstrument (_instrument application) sig = application sig)
  ∧ (∀ sig r, r ∈ _uninstrument (_instrument application) sig →
              is_own r = false).
Proof.
  apply (instrument_connects_six_and_uninstrument_disconnects_them application).
  intros sig r Hin. destruct sig; simpl in Hin;
    try (by apply elem_of_nil in Hin).
  apply elem_of_cons in Hin as [->|Hin]; [reflexivity|].
  by apply elem_of_nil in Hin.
Defined.

(** A before-publish signal whose keyword arguments have an entry that the
    attributes of the context put under "messaging.message_id": the handler
    sets the attribute to the task id of the message, "7f3a", and the value
    from the context is set after it, so that the attribute of the span is
    not the task id of the message. *)
Lemma context_entry_replaces_the_message_id :
  kw_sender publish_with_id = Some add_task
  ∧ kw_message_id publish_with_id = Some "7f3a"
  ∧ ∃ x, spans (exec (_trace_before_publish with_message_id publish_with_id)
                  init) !! 0 = Some x
      ∧ SetAttribute "messaging.message_id" (VStr "7f3a") ∈ span_calls x
      ∧ attribute "messaging.message_id" x = Some (VStr "b2c9")
      ∧ attribute "messaging.message_id" x ≠ Some (VStr "7f3a").
Proof.
  split; [reflexivity|]. split; [reflexivity|].
  eexists. split; [vm_compute; reflexivity|].
  split; [|split; [vm_compute; reflexivity | vm_compute; discriminate]].
  cbn [span_calls]. do 4 right. left.
Qed.

Lemma recorded_attributes_match_the_signal_witness :
  (∃ x, spans (exec (_trace_before_publish prefixed publish_signal) running) !! 1
        = Some x
     ∧ attribute "celery.action" x = Some (VStr "apply_async")
     ∧ attribute "messaging.message_id" x = Some (VStr "7f3a")
     ∧ attribute "celery.task_name" x = Some (VStr "tasks.add"))
  ∧ (∃ x, spans (exec (_trace_postrun prefixed run_signal) running) !! 0 = Some x
       ∧ attribute "celery.task_name" x = Some (VStr "tasks.add")
       ∧ SetAttribute "celery.action" (VStr "run") ∈ span_calls x
       ∧ attribute "celery.action" x = Some (VStr "run")).
Proof.
  split.
  - destruct (proj1 (recorded_attributes_match_the_signal prefixed
                       publish_signal add_task "7f3a" running)
                eq_refl eq_refl) as (x & cs & Hx & _ & _ & Hattr).
    exists x. split; [exact Hx|].
    repeat split; apply Hattr;
      solve [ repeat constructor
            | vm_compute; intros Hin;
              apply elem_of_cons in Hin as [Heq|Hin];
              [discriminate | by apply elem_of_nil in Hin] ].
  - destruct (proj2 (recorded_attributes_match_the_signal prefixed run_signal
                       add_task "7f3a" running) 0 run_activation run_span
                eq_refl eq_refl eq_refl eq_refl) as (x & Hx & Hname & Hset & Haction).
    exists x. split; [exact Hx|]. split; [exact Hname|]. split; [exact Hset|].
    apply Haction; vm_compute; intros Hin;
      repeat (apply elem_of_cons in Hin as [Heq|Hin]; [discriminate|]);
      by apply elem_of_nil in Hin.
Defined.

Lemma publish_and_run_spans_are_kept_apart_witness :
  (let s1 := call prefixed (trace_before_publish, publish_signal) init in
   let s := calls prefixed [(trace_prerun, run_signal)] s1 in
   span_dict s1 !! (1, "7f3a", true)
   = Some (0, {| act_span := 0; act_end_on_exit := true |})
   ∧ span_dict s1 !! (1, "7f3a", false) = span_dict init !! (1, "7f3a", false)
   ∧ ended (call prefixed (trace_postrun, run_signal) s) 0 = ended s 0)
  ∧ (let s1 := call prefixed (trace_prerun, run_signal) init in
     let s := calls prefixed [(trace_before_publish, publish_signal)] s1 in
     span_dict s1 !! (1, "7f3a", false)
     = Some (0, {| act_span := 0; act_end_on_exit := true |})
     ∧ span_dict s1 !! (1, "7f3a", true) = span_dict init !! (1, "7f3a", true)
     ∧ ended (call prefixed (trace_after_publish, publish_signal) s) 0 = ended s 0).
Proof.
  split.
  - apply (proj1 (publish_and_run_spans_are_kept_apart prefixed []
                    publish_signal [(trace_prerun, run_signal)] run_signal)
             add_task "7f3a"); reflexivity.
  - apply (proj2 (publish_and_run_spans_are_kept_apart prefixed []
                    run_signal [(trace_before_publish, publish_signal)]
                    publish_signal)
             add_task "7f3a"); reflexivity.
Defined.

Lemma spans_started_by_prerun_and_before_publish_witness :
  (∃ x, spans (exec (_trace_prerun run_signal) running) !! 1 = Some x
     ∧ length (spans (exec (_trace_prerun run_signal) running)) = 2
     ∧ span_kind x = CONSUMER ∧ span_name x = "tasks.add")
  ∧ (∃ x, spans (exec (_trace_before_publish prefixed publish_signal) running)
            !! 1 = Some x
       ∧ length (spans (exec (_trace_before_publish prefixed publish_signal)
                          running)) = 2
       ∧ span_kind x = PRODUCER ∧ span_name x = "tasks.add")
  ∧ length (spans (call prefixed (trace_prerun, nothing) running))
    = length (spans running)
  ∧ (∃ x', spans (calls prefixed [(trace_postrun, run_signal)] running) !! 0
           = Some x'
       ∧ span_kind x' = CONSUMER ∧ span_name x' = "tasks.add").
Proof.
  split; [|split; [|split]].
  - apply (proj1 (spans_started_by_prerun_and_before_publish prefixed
                    run_signal running) add_task "7f3a"); reflexivity.
  - apply (proj1 (proj2 (spans_started_by_prerun_and_before_publish prefixed
                           publish_signal running)) add_task "7f3a"); reflexivity.
  - apply (proj1 (proj2 (proj2 (spans_started_by_prerun_and_before_publish
                                  prefixed nothing running))) trace_prerun).
    left. reflexivity.
  - apply (proj2 (proj2 (proj2 (spans_started_by_prerun_and_before_publish
                                  prefixed nothing running)))
             [(trace_postrun, run_signal)] 0 run_span).
    vm_compute. reflexivity.
Defined.

(** * Further properties of the handlers *)

Section Further.

Variable context_attributes : Context → list (string * AttrValue).

Local Abbreviation postrun := (_trace_postrun context_attributes).
Local Abbreviation before_publish := (_trace_before_publish context_attributes).
Local Abbreviation run := (calls context_attributes).
Local Abbreviation step := (call context_attributes).

(** ** What a call takes from the table *)

Lemma attribute_calls_are_attributes kvs :
  Forall (λ c, is_set_attribute c = true) (attribute_calls kvs).
Proof.
  unfold attribute_calls. induction kvs as [|[k v] rest IH]; simpl.
  - constructor.
  - rewrite reverse_cons. apply Forall_app. split; [done|]. by constructor.
Qed.

Lemma postrun_calls_are_attributes kw t :
  Forall (λ c, is_set_attribute c = true)
         (postrun_calls context_attributes kw t).
Proof.
  unfold postrun_calls. constructor; [done|].
  rewrite !Forall_app. repeat split; try apply attribute_calls_are_attributes.
  by constructor.
Qed.

Lemma step_transition e s : transition s (subject e) (step e s).
Proof.
  destruct e as [h kw]. unfold subject, event_key. cbn [fst snd].
  destruct h; cbn match.
  - destruct (kw_task kw) as [t|] eqn:Ht, (kw_task_id kw) as [i|] eqn:Hi.
    2-4: destruct (step_unidentified context_attributes trace_prerun kw s)
           as (msgs & ->);
         [unfold identified; by rewrite Ht, Hi | apply transition_log].
    change (step (trace_prerun, kw) s) with (exec (_trace_prerun kw) s).
    rewrite (prerun_present kw t i) by done.
    by apply (transition_open s (name t) false []).
  - destruct (kw_task kw) as [t|] eqn:Ht, (kw_task_id kw) as [i|] eqn:Hi.
    2-4: destruct (step_unidentified context_attributes trace_postrun kw s)
           as (msgs & ->);
         [unfold identified; by rewrite Ht, Hi | apply transition_log].
    change (step (trace_postrun, kw) s) with (exec (postrun kw) s).
    destruct (span_dict s !! (task_ident t, i, false)) as [[sp act]|] eqn:Hsp.
    + rewrite (postrun_found context_attributes kw t i sp act) by done.
      apply transition_close; [done | apply postrun_calls_are_attributes].
    + rewrite (postrun_not_found context_attributes kw t i) by done.
      apply transition_log.
  - destruct (kw_sender kw) as [t|] eqn:Ht, (kw_message_id kw) as [i|] eqn:Hi.
    2-4: destruct (step_unidentified context_attributes trace_before_publish
                     kw s) as (msgs & ->);
         [unfold identified; by rewrite Ht, Hi | apply transition_log].
    change (step (trace_before_publish, kw) s) with (exec (before_publish kw) s).
    rewrite (before_publish_present context_attributes kw t i) by done.
    apply (transition_open s (name t) true).
    apply Forall_app. split; [apply attribute_calls_are_attributes|].
    by repeat constructor.
  - destruct (kw_sender kw) as [t|] eqn:Ht, (kw_message_id kw) as [i|] eqn:Hi.
    2-4: destruct (step_unidentified context_attributes trace_after_publish
                     kw s) as (msgs & ->);
         [unfold identified; by rewrite Ht, Hi | apply transition_log].
    change (step (trace_after_publish, kw) s)
      with (exec (_trace_after_publish kw) s).
    destruct (span_dict s !! (task_ident t, i, true)) as [[sp act]|] eqn:Hsp.
    + rewrite (after_publish_found kw t i sp act) by done.
      rewrite <- (list_alter_id (add_calls []) (spans s) sp) at 1
        by apply add_calls_nil.
      by apply transition_close.
    + rewrite (after_publish_not_found kw t i) by done. apply transition_log.
  - destruct (kw_sender kw) as [t|] eqn:Ht, (kw_task_id kw) as [i|] eqn:Hi.
    2-4: destruct (step_unidentified context_attributes trace_failure kw s)
           as (msgs & ->);
         [unfold identified; by rewrite Ht, Hi | apply transition_log].
    change (step (trace_failure, kw) s) with (exec (_trace_failure kw) s).
    destruct (span_dict s !! (task_ident t, i, false)) as [[sp act]|] eqn:Hsp.
    + rewrite (failure_found kw t i sp act) by done.
      destruct (kw_einfo kw) as [ex|]; [|apply transition_none].
      destruct (expected_exception t ex); [apply transition_none|].
      by apply (transition_annotate s (task_ident t) i sp act).
    + rewrite (failure_not_found kw t i) by done. apply transition_none.
  - destruct (kw_sender kw) as [t|] eqn:Ht, (kw_request_id kw) as [i|] eqn:Hi,
      (kw_reason kw) as [r|] eqn:Hr.
    2-8: destruct (step_unidentified context_attributes trace_retry kw s)
           as (msgs & ->);
         [unfold identified; by rewrite Ht, Hi, Hr | apply transition_log].
    change (step (trace_retry, kw) s) with (exec (_trace_retry kw) s).
    destruct (span_dict s !! (task_ident t, i, false)) as [[sp act]|] eqn:Hsp.
    + rewrite (retry_found kw t i r sp act) by done.
      by apply (transition_annotate s (task_ident t) i sp act).
    + rewrite (retry_not_found kw t i r) by done. apply transition_none.
Qed.

(** A span that is attached under no key is left as it is. *)
Lemma transition_frame s ko s' j x :
  transition s ko s' → unattached s j → spans s !! j = Some x →
  spans s' !! j = Some x.
Proof.
  intros Htr Hun Hx.
  destruct Htr as [ko | ko msgs | nm b cs t i l Hcs | k sp act cs l Hlook Hcs
                  | t i sp act c l Hlook Hc]; simpl; try done.
  - rewrite lookup_finalized_ne; [by apply lookup_app_l_Some|].
    intros sp a Hlook. by destruct (Hun _ _ _ Hlook).
  - destruct (Hun _ _ _ Hlook) as [Hsp Hact].
    by rewrite !list_lookup_alter_ne.
  - destruct (Hun _ _ _ Hlook) as [Hsp Hact].
    by rewrite list_lookup_alter_ne.
Qed.

(** What is attached after a call was attached before, or is the span that
    the call has started. *)
Lemma transition_attached s ko s' k sp act :
  transition s ko s' → span_dict s' !! k = Some (sp, act) →
  span_dict s !! k = Some (sp, act)
  ∨ (sp = length (spans s) ∧ act_span act = length (spans s)).
Proof.
  intros Htr Hk.
  destruct Htr as [ko | ko msgs | nm b cs t i l Hcs
                  | k' sp' act' cs l Hlook Hcs
                  | t i sp' act' c l Hlook Hc]; simpl in Hk; try by left.
  - rewrite lookup_insert in Hk. case_decide; [|by left].
    right. by simplify_eq.
  - left. by apply lookup_delete_Some in Hk as [_ Hk].
Qed.

Lemma transition_unattached s ko s' j :
  transition s ko s' → j < length (spans s) → unattached s j → unattached s' j.
Proof.
  intros Htr Hj Hun k sp act Hk.
  destruct (transition_attached s ko s' k sp act Htr Hk) as [Hold|[-> ->]].
  - by eapply Hun.
  - lia.
Qed.

Lemma unattached_forever later s j x :
  unattached s j → spans s !! j = Some x →
  spans (run later s) !! j = Some x ∧ unattached (run later s) j.
Proof.
  revert s. induction later as [|e later IH]; intros s Hun Hx; [done|].
  simpl. apply IH.
  - apply (transition_unattached s (subject e)); [apply step_transition | | done].
    by apply lookup_lt_Some in Hx.
  - by apply (transition_frame s _ _ j x (step_transition e s)).
Qed.

(** ** What holds in every state that the handlers can reach *)

(** X1: whatever signals were handled, the table and the spans fit
    together: what is attached under a key is a span that exists, of the
    kind of the direction of the key, not ended, together with the activation
    that was made for it with [end_on_exit]; no span is attached under two
    keys; and no span was ended more than once. *)
Theorem reachable_states_are_consistent history :
  let s := run history init in
  (∀ k sp act,
     span_dict s !! k = Some (sp, act) →
     act = {| act_span := sp; act_end_on_exit := true |}
     ∧ ∃ x, spans s !! sp = Some x ∧ end_count x = 0
          ∧ span_kind x = kind_of_direction k.2)
  ∧ (∀ k1 k2 sp a1 a2,
       span_dict s !! k1 = Some (sp, a1) →
       span_dict s !! k2 = Some (sp, a2) → k1 = k2)
  ∧ (∀ j x, spans s !! j = Some x → end_count x ≤ 1).
Proof.
  intros s.
  destruct (consistent_run context_attributes history init consistent_init)
    as [Hopen Honce Hmost].
  done.
Qed.

Lemma open_calls_plain cs1 cs2 :
  Forall (λ c, is_plain c = true) cs1 → open_calls cs2 → open_calls (cs1 ++ cs2).
Proof.
  intros H1 (pre & post & Hpre & Hpost & ->).
  exists pre, (cs1 ++ post). split; [done|]. split.
  - by apply Forall_app.
  - by rewrite app_assoc.
Qed.

Lemma attributes_are_plain cs :
  Forall (λ c, is_set_attribute c = true) cs →
  Forall (λ c, is_plain c = true) cs.
Proof. intros H. eapply Forall_impl; [exact H|]. by intros []. Qed.

Lemma annotation_is_plain c : is_annotation c = true → is_plain c = true.
Proof. by destruct c. Qed.

Lemma ordered_calls_open cs : ordered_calls cs → ends cs = 0 → open_calls cs.
Proof. intros [Hopen|(rest & -> & _)]; [done|]. by unfold ends. Qed.

Lemma transition_ordered s ko s' :
  transition s ko s' → consistent s →
  (∀ j x, spans s !! j = Some x → ordered_calls (span_calls x)) →
  ∀ j x, spans s' !! j = Some x → ordered_calls (span_calls x).
Proof.
  intros Htr Hs Hord.
  destruct Htr as [ko | ko msgs | nm b cs t i l Hcs | k sp act cs l Hlook Hcs
                  | t i sp act c l Hlook Hc]; simpl; try done.
  - assert (Hnew : ∀ j x,
              (spans s ++ [ {| span_name := nm; span_kind := kind_of_direction b;
                               span_calls := Activate :: cs |} ]) !! j = Some x →
              ordered_calls (span_calls x)).
    { intros j x Hx. apply lookup_app_Some in Hx as [Hx|[_ Hx]].
      + by eapply Hord.
      + apply list_lookup_singleton_Some in Hx as [_ <-]. simpl.
        left. by exists cs, []. }
    destruct (span_dict s !! (t, i, b)) as [[sp0 a0]|] eqn:Hold; simpl;
      [|done].
    destruct (attached_open s Hs _ _ _ Hold) as (-> & y & Hy & Hy0 & _).
    simpl. intros j x Hx. destruct (decide (sp0 = j)) as [->|Hne].
    + rewrite list_lookup_alter_eq in Hx.
      rewrite (lookup_app_l_Some _ _ _ _ Hy) in Hx. simpl in Hx. simplify_eq.
      right. exists (span_calls y). split; [done|].
      apply ordered_calls_open; [by eapply Hord | done].
    + rewrite list_lookup_alter_ne in Hx by done. by eapply Hnew.
  - destruct (attached_open s Hs _ _ _ Hlook) as (-> & y & Hy & Hy0 & _).
    simpl. rewrite alter_add_calls. intros j x Hx.
    destruct (decide (sp = j)) as [->|Hne].
    + rewrite list_lookup_alter_eq, Hy in Hx. simpl in Hx. simplify_eq.
      right. exists (cs ++ span_calls y). split; [done|].
      apply open_calls_plain; [by apply attributes_are_plain|].
      apply ordered_calls_open; [by eapply Hord | done].
    + rewrite list_lookup_alter_ne in Hx by done. by eapply Hord.
  - destruct (attached_open s Hs _ _ _ Hlook) as (-> & y & Hy & Hy0 & _).
    intros j x Hx. destruct (decide (sp = j)) as [->|Hne].
    + rewrite list_lookup_alter_eq, Hy in Hx. simpl in Hx. simplify_eq.
      left. apply (open_calls_plain [c]).
      * constructor; [by apply annotation_is_plain | constructor].
      * apply ordered_calls_open; [by eapply Hord | done].
    + rewrite list_lookup_alter_ne in Hx by done. by eapply Hord.
Qed.

(** X2: whatever signals were handled, the calls on a span come in one
    order: attributes, one activation, attributes and statuses, and then,
    for a span that was ended, the leaving of its context and the end, after
    which nothing is called on it. *)
Theorem calls_on_a_span_are_ordered history j x :
  spans (run history init) !! j = Some x →
  (∃ pre post,
     Forall (λ c, is_set_attribute c = true) pre
     ∧ Forall (λ c, is_plain c = true) post
     ∧ (span_calls x = post ++ Activate :: pre
        ∨ span_calls x = End :: Deactivate :: post ++ Activate :: pre)).
Proof.
  assert (Hall : ∀ es s, consistent s →
            (∀ j x, spans s !! j = Some x → ordered_calls (span_calls x)) →
            ∀ j x, spans (run es s) !! j = Some x → ordered_calls (span_calls x)).
  { induction es as [|e es IH]; intros s Hs Hord; [done|].
    simpl. apply IH.
    - by apply consistent_step.
    - by apply (transition_ordered s (subject e)), Hord; [apply step_transition|]. }
  intros Hx.
  destruct (Hall history init consistent_init
              ltac:(intros j' x'; simpl; by rewrite lookup_nil) j x Hx)
    as [(pre & post & Hpre & Hpost & Heq)
       |(rest & Heq & pre & post & Hpre & Hpost & ->)].
  - exists pre, post. eauto.
  - exists pre, post. eauto.
Qed.

(** X3: in whatever state, a call of a handler leaves a span as it is when
    the span is attached under no key. *)
Theorem handler_leaves_unattached_spans h kw s j x :
  unattached s j → spans s !! j = Some x →
  spans (step (h, kw) s) !! j = Some x.
Proof.
  intros Hun Hx.
  by apply (transition_frame s (subject (h, kw))), Hx; [apply step_transition|].
Qed.

Lemma ended_is_unattached s j x :
  consistent s → spans s !! j = Some x → 1 ≤ end_count x → unattached s j.
Proof.
  intros Hs Hx Hended k sp act Hk.
  destruct (attached_open s Hs _ _ _ Hk) as (-> & y & Hy & Hy0 & _). simpl.
  assert (sp ≠ j); [|done]. intros ->. simplify_eq. lia.
Qed.

(** X4: once a span is ended, no handler calls it again, whatever signals
    follow: neither a status nor an attribute is set on an ended span, and
    it is not ended a second time. *)
Theorem ended_span_is_left_alone history later j x :
  spans (run history init) !! j = Some x → 1 ≤ end_count x →
  spans (run later (run history init)) !! j = Some x.
Proof.
  intros Hx Hended. apply unattached_forever; [|done].
  apply (ended_is_unattached _ j x); [|done..].
  apply consistent_run, consistent_init.
Qed.

Lemma first_span_finalized b history kw kw' tid i between later :
  event_key (opener b, kw) = Some (tid, i, b) →
  event_key (opener b, kw') = Some (tid, i, b) →
  Forall (λ e, event_key e ≠ Some (tid, i, b)) between →
  let s0 := run history init in
  let j := length (spans s0) in
  let s1 := run between (step (opener b, kw) s0) in
  let s2 := step (opener b, kw') s1 in
  ∃ x, spans s1 !! j = Some x ∧ end_count x = 0
    ∧ spans s2 !! j = Some (add_calls [End; Deactivate] x)
    ∧ span_dict s2 !! (tid, i, b)
      = Some (length (spans s1),
              {| act_span := length (spans s1); act_end_on_exit := true |})
    ∧ j < length (spans s1)
    ∧ spans (run later s2) !! j = Some (add_calls [End; Deactivate] x).
Proof.
  intros Hopen Hopen' Hbetween s0 j s1 s2.
  assert (Hs1 : consistent s1).
  { apply consistent_run, consistent_step, consistent_run, consistent_init. }
  destruct (opener_step context_attributes b kw tid i s0 Hopen)
    as (nm & cs & l & Hcs & Heq0).
  assert (Hk : span_dict s1 !! (tid, i, b)
               = Some (j, {| act_span := j; act_end_on_exit := true |})).
  { apply run_keeps_attached; [done|]. rewrite Heq0. simpl.
    apply lookup_insert_eq. }
  destruct (attached_open s1 Hs1 _ _ _ Hk) as (_ & x & Hx & Hx0 & _).
  destruct (opener_step context_attributes b kw' tid i s1 Hopen')
    as (nm' & cs' & l' & Hcs' & Heq2).
  fold s2 in Heq2.
  assert (Hj : j < length (spans s1)) by by apply lookup_lt_Some in Hx.
  assert (Hx2 : spans s2 !! j = Some (add_calls [End; Deactivate] x)).
  { rewrite Heq2. cbn [spans]. rewrite Hk. simpl.
    rewrite list_lookup_alter_eq. by rewrite (lookup_app_l_Some _ _ _ _ Hx). }
  assert (Hun : unattached s2 j).
  { intros k sp act. rewrite Heq2. simpl. rewrite lookup_insert.
    case_decide as Hkk; intros Hl.
    - simplify_eq. simpl. lia.
    - destruct (attached_open s1 Hs1 _ _ _ Hl) as (-> & _). simpl.
      assert (sp ≠ j); [|done]. intros ->. apply Hkk.
      by apply (attached_once s1 Hs1 _ _ j _ _ Hk Hl). }
  exists x. split; [done|]. split; [done|]. split; [done|]. split.
  { rewrite Heq2. simpl. apply lookup_insert_eq. }
  split; [done|]. by apply unattached_forever.
Qed.

(** X5: when the prerun handler is called a second time for a task and task
    id whose span is still attached, the new span takes the place of the
    first one in the table, and the first span, open until then, is
    finalized by that call: its context is left and it is ended, and this
    is all the call does to it. Whatever signals follow, nothing more is
    called on it. The same holds of the before-publish handler. *)
Theorem second_start_ends_the_first_span history between later :
  (∀ kw kw' t t' i,
     kw_task kw = Some t → kw_task_id kw = Some i →
     kw_task kw' = Some t' → task_ident t' = task_ident t →
     kw_task_id kw' = Some i →
     Forall (λ e, event_key e ≠ Some (task_ident t, i, false)) between →
     let s0 := run history init in
     let j := length (spans s0) in
     let s1 := run between (step (trace_prerun, kw) s0) in
     let s2 := step (trace_prerun, kw') s1 in
     ∃ x, spans s1 !! j = Some x ∧ end_count x = 0
       ∧ spans s2 !! j = Some (add_calls [End; Deactivate] x)
       ∧ span_dict s2 !! (task_ident t, i, false)
         = Some (length (spans s1),
                 {| act_span := length (spans s1); act_end_on_exit := true |})
       ∧ j < length (spans s1)
       ∧ spans (run later s2) !! j = Some (add_calls [End; Deactivate] x))
  ∧ (∀ kw kw' t t' i,
     kw_sender kw = Some t → kw_message_id kw = Some i →
     kw_sender kw' = Some t' → task_ident t' = task_ident t →
     kw_message_id kw' = Some i →
     Forall (λ e, event_key e ≠ Some (task_ident t, i, true)) between →
     let s0 := run history init in
     let j := length (spans s0) in
     let s1 := run between (step (trace_before_publish, kw) s0) in
     let s2 := step (trace_before_publish, kw') s1 in
     ∃ x, spans s1 !! j = Some x ∧ end_count x = 0
       ∧ spans s2 !! j = Some (add_calls [End; Deactivate] x)
       ∧ span_dict s2 !! (task_ident t, i, true)
         = Some (length (spans s1),
                 {| act_span := length (spans s1); act_end_on_exit := true |})
       ∧ j < length (spans s1)
       ∧ spans (run later s2) !! j = Some (add_calls [End; Deactivate] x)).
Proof.
  split.
  - intros kw kw' t t' i Ht Hi Ht' Hident Hi' Hbetween.
    apply (first_span_finalized false history kw kw' (task_ident t) i between later);
      [| |done].
    + unfold event_key. simpl. by rewrite Ht, Hi.
    + unfold event_key. simpl. by rewrite Ht', Hi', Hident.
  - intros kw kw' t t' i Ht Hi Ht' Hident Hi' Hbetween.
    apply (first_span_finalized true history kw kw' (task_ident t) i between later);
      [| |done].
    + unfold event_key. simpl. by rewrite Ht, Hi.
    + unfold event_key. simpl. by rewrite Ht', Hi', Hident.
Qed.

(** ** Signals that come twice, or late *)

Lemma postrun_detaches kw t i s :
  kw_task kw = Some t → kw_task_id kw = Some i →
  span_dict (exec (postrun kw) s) !! (task_ident t, i, false) = None.
Proof.
  intros Ht Hi.
  destruct (span_dict s !! (task_ident t, i, false)) as [[sp act]|] eqn:Hsp.
  - rewrite (postrun_found context_attributes kw t i sp act) by done. simpl.
    apply lookup_delete_eq.
  - by rewrite (postrun_not_found context_attributes kw t i).
Qed.

Lemma after_publish_detaches kw t i s :
  kw_sender kw = Some t → kw_message_id kw = Some i →
  span_dict (exec (_trace_after_publish kw) s) !! (task_ident t, i, true) = None.
Proof.
  intros Ht Hi.
  destruct (span_dict s !! (task_ident t, i, true)) as [[sp act]|] eqn:Hsp.
  - rewrite (after_publish_found kw t i sp act) by done. simpl.
    apply lookup_delete_eq.
  - by rewrite (after_publish_not_found kw t i).
Qed.

(** X6: in whatever state, a second postrun signal for the same task and
    task id finds no span: all the handler does is log its debug record and
    the warning that no span exists; no span and no entry of the table
    changes.  Likewise a second after-publish signal only logs the
    warning. *)
Theorem second_end_only_warns s :
  (∀ kw kw' t t' i,
     kw_task kw = Some t → kw_task_id kw = Some i →
     kw_task kw' = Some t' → task_ident t' = task_ident t →
     kw_task_id kw' = Some i →
     let s1 := exec (postrun kw) s in
     exec (postrun kw') s1
     = logged [LogWarning "no existing span found for task_id=%s" i;
               LogDebug "postrun signal task_id=%s" i] s1)
  ∧ (∀ kw kw' t t' i,
     kw_sender kw = Some t → kw_message_id kw = Some i →
     kw_sender kw' = Some t' → task_ident t' = task_ident t →
     kw_message_id kw' = Some i →
     let s1 := exec (_trace_after_publish kw) s in
     exec (_trace_after_publish kw') s1
     = logged [LogWarning "no existing span found for task_id=%s" i] s1).
Proof.
  split.
  - intros kw kw' t t' i Ht Hi Ht' Hident Hi' s1.
    apply (postrun_not_found context_attributes kw' t' i); [done..|].
    rewrite Hident. by apply postrun_detaches.
  - intros kw kw' t t' i Ht Hi Ht' Hident Hi' s1.
    apply (after_publish_not_found kw' t' i); [done..|].
    rewrite Hident. by apply after_publish_detaches.
Qed.

(** X7: in whatever state, a failure or retry signal that comes after the
    postrun signal of the same task and task id changes nothing: the span is
    detached, and the handlers return with the state as it was, without a
    log record. *)
Theorem failure_and_retry_after_postrun_do_nothing kw t i s :
  kw_task kw = Some t → kw_task_id kw = Some i →
  let s1 := exec (postrun kw) s in
  (∀ kw_f t',
     kw_sender kw_f = Some t' → task_ident t' = task_ident t →
     kw_task_id kw_f = Some i →
     _trace_failure kw_f s1 = (Returned tt, s1))
  ∧ (∀ kw_r t' r,
     kw_sender kw_r = Some t' → task_ident t' = task_ident t →
     kw_request_id kw_r = Some i → kw_reason kw_r = Some r →
     _trace_retry kw_r s1 = (Returned tt, s1)).
Proof.
  intros Ht Hi s1.
  assert (Hnone : span_dict s1 !! (task_ident t, i, false) = None)
    by by apply postrun_detaches.
  split.
  - intros kw_f t' Ht' Hident Hi'. rewrite returns_none_failure. f_equal.
    apply (failure_not_found kw_f t' i); [done..|]. by rewrite Hident.
  - intros kw_r t' r Ht' Hident Hi' Hr. rewrite returns_none_retry. f_equal.
    apply (retry_not_found kw_r t' i r); [done..|]. by rewrite Hident.
Qed.

(** ** Which spans get a status *)

Lemma status_calls_app cs rest :
  status_calls (cs ++ rest) = status_calls cs ++ status_calls rest.
Proof.
  induction cs as [|c cs IH]; [done|]. destruct c; simpl; by rewrite ?IH.
Qed.

Lemma status_calls_attributes cs :
  Forall (λ c, is_set_attribute c = true) cs → status_calls cs = [].
Proof.
  induction 1 as [|c cs Hc _ IH]; [done|]. by destruct c.
Qed.

Lemma status_in_unset cs :
  status_calls cs = [] →
  status_in cs = if decide (ends cs = 0) then None else Some status_on_end.
Proof.
  unfold ends. induction cs as [|c cs IH]; [done|].
  destruct c; cbn [status_calls status_in]; try done.
  intros Hcs. rewrite filter_cons_True by done. rewrite (IH Hcs).
  cbn [length]. by case_decide.
Qed.

Lemma status_in_unknown cs st :
  Forall (λ st, canonical_code st = UNKNOWN) (status_calls cs) →
  status_in cs = Some st →
  canonical_code st = UNKNOWN ∨ (st = status_on_end ∧ 1 ≤ ends cs).
Proof.
  unfold ends. induction cs as [|c cs IH]; [done|].
  destruct c as [key value|st'| | |]; cbn [status_calls status_in].
  - rewrite filter_cons_False by done. apply IH.
  - intros Hall [= <-]. left. by inversion Hall.
  - rewrite filter_cons_False by done. apply IH.
  - rewrite filter_cons_False by done. apply IH.
  - rewrite filter_cons_True by done. intros Hall.
    destruct (status_in cs) as [st'|] eqn:Hst'.
    + intros [= <-]. destruct (IH Hall eq_refl) as [?|[? ?]]; [by left|].
      right. split; [done|]. cbn [length]. lia.
    + intros [= <-]. right. split; [done|]. cbn [length]. lia.
Qed.

Lemma status_by_kind_add cs x :
  status_calls cs = [] → status_by_kind x → status_by_kind (add_calls cs x).
Proof.
  intros Hcs. unfold status_by_kind. simpl.
  by rewrite status_calls_app, Hcs.
Qed.

Lemma transition_status s ko s' :
  transition s ko s' → consistent s →
  (∀ j x, spans s !! j = Some x → status_by_kind x) →
  ∀ j x, spans s' !! j = Some x → status_by_kind x.
Proof.
  intros Htr Hs Hst.
  destruct Htr as [ko | ko msgs | nm b cs t i l Hcs | k sp act cs l Hlook Hcs
                  | t i sp act c l Hlook Hc]; simpl; try done.
  - assert (Hnew : ∀ j x,
              (spans s ++ [ {| span_name := nm; span_kind := kind_of_direction b;
                               span_calls := Activate :: cs |} ]) !! j = Some x →
              status_by_kind x).
    { intros j x Hx. apply lookup_app_Some in Hx as [Hx|[_ Hx]].
      + by eapply Hst.
      + apply list_lookup_singleton_Some in Hx as [_ <-].
        unfold status_by_kind. simpl. rewrite (status_calls_attributes cs Hcs).
        destruct b; [left|right]; by split. }
    destruct (span_dict s !! (t, i, b)) as [[sp0 a0]|] eqn:Hold; simpl;
      [|done].
    intros j x Hx. destruct (decide (act_span a0 = j)) as [<-|Hne].
    + rewrite list_lookup_alter_eq in Hx.
      destruct (_ !! act_span a0) as [y|] eqn:Hy; [|done].
      simpl in Hx. simplify_eq.
      apply status_by_kind_add; [|by eapply Hnew].
      unfold exit_calls. by destruct (act_end_on_exit a0).
    + rewrite list_lookup_alter_ne in Hx by done. by eapply Hnew.
  - destruct (attached_open s Hs _ _ _ Hlook) as (-> & y & Hy & Hy0 & _).
    simpl. rewrite alter_add_calls. intros j x Hx.
    destruct (decide (sp = j)) as [->|Hne].
    + rewrite list_lookup_alter_eq, Hy in Hx. simpl in Hx. simplify_eq.
      apply (status_by_kind_add (End :: Deactivate :: cs)); [|by eapply Hst].
      simpl. by apply status_calls_attributes.
    + rewrite list_lookup_alter_ne in Hx by done. by eapply Hst.
  - destruct (attached_open s Hs _ _ _ Hlook) as (-> & y & Hy & Hy0 & Hkind).
    intros j x Hx. destruct (decide (sp = j)) as [->|Hne].
    + rewrite list_lookup_alter_eq, Hy in Hx. simpl in Hx. simplify_eq.
      right. split; [done|]. simpl.
      assert (Hy' : Forall (λ st, canonical_code st = UNKNOWN)
                      (status_calls (span_calls y))).
      { destruct (Hst _ _ Hy) as [[Hp _]|[_ Hun]]; [|done].
        simpl in Hkind. congruence. }
      destruct c as [key value|st'| | |]; try done.
      constructor; [|done]. by apply bool_decide_eq_true in Hc.
    + rewrite list_lookup_alter_ne in Hx by done. by eapply Hst.
Qed.

(** X8: whatever signals were handled, the handlers set no status on a span
    of a publication (kind PRODUCER): it has none while it is open, and the
    status OK that [end] gives it once it is ended. On a span of a run (kind
    CONSUMER) they set the status UNKNOWN only: its status, when it has one,
    is UNKNOWN, or it is the status OK of a span that was ended with none
    set. The handlers make no other spans. *)
Theorem status_of_a_span_by_its_kind history j x :
  spans (run history init) !! j = Some x →
  (span_kind x = PRODUCER
   ∧ status_calls (span_calls x) = []
   ∧ status x = if decide (end_count x = 0) then None else Some status_on_end)
  ∨ (span_kind x = CONSUMER
     ∧ Forall (λ st, canonical_code st = UNKNOWN) (status_calls (span_calls x))
     ∧ ∀ st, status x = Some st →
         canonical_code st = UNKNOWN
         ∨ (st = status_on_end ∧ 1 ≤ end_count x)).
Proof.
  assert (Hall : ∀ es s, consistent s →
            (∀ j x, spans s !! j = Some x → status_by_kind x) →
            ∀ j x, spans (run es s) !! j = Some x → status_by_kind x).
  { induction es as [|e es IH]; intros s Hs Hst; [done|].
    simpl. apply IH.
    - by apply consistent_step.
    - by apply (transition_status s (subject e)), Hst; [apply step_transition|]. }
  intros Hx.
  destruct (Hall history init consistent_init
              ltac:(intros j' x'; simpl; by rewrite lookup_nil) j x Hx)
    as [[Hkind Hcalls]|[Hkind Hcalls]].
  - left. split; [done|]. split; [done|]. by apply status_in_unset.
  - right. split; [done|]. split; [done|].
    intros st. by apply status_in_unknown.
Qed.

(** ** How many spans there are *)

Lemma step_length e s :
  length (spans (step e s))
  = length (spans s) + (if starts e then 1 else 0).
Proof.
  destruct e as [h kw]. unfold starts. cbn [fst snd].
  destruct (opens h) eqn:Hopens; simpl.
  - destruct (identified h kw) eqn:Hid.
    + destruct h; try discriminate Hopens; unfold identified in Hid.
      * destruct (kw_task kw) as [t|] eqn:Ht, (kw_task_id kw) as [i|] eqn:Hi;
          try discriminate Hid.
        change (step (trace_prerun, kw) s) with (exec (_trace_prerun kw) s).
        rewrite (prerun_present kw t i) by done. simpl.
        by rewrite length_finalized, length_app.
      * destruct (kw_sender kw) as [t|] eqn:Ht,
          (kw_message_id kw) as [i|] eqn:Hi; try discriminate Hid.
        change (step (trace_before_publish, kw) s)
          with (exec (before_publish kw) s).
        rewrite (before_publish_present context_attributes kw t i) by done.
        simpl. by rewrite length_finalized, length_app.
    + destruct (step_unidentified context_attributes h kw s Hid) as (msgs & ->).
      simpl. lia.
  - rewrite (effect_length s h (event_key (h, kw))); [lia | done |].
    apply (step_effect context_attributes (h, kw)).
Qed.

(** X9: the number of spans is the number of calls that started one: of the
    prerun and before-publish handlers, with their task and task id.  No
    other call adds a span, and none removes one. *)
Theorem number_of_spans history s :
  length (spans (run history s))
  = length (spans s) + length (filter (λ e, starts e = true) history).
Proof.
  revert s. induction history as [|e es IH]; intros s; simpl; [lia|].
  rewrite IH, step_length. destruct (starts e) eqn:He.
  - rewrite filter_cons_True by done. simpl. lia.
  - rewrite filter_cons_False by by rewrite He. lia.
Qed.

(** ** Which value of an attribute stays *)

(** X10: on the span of a run, after the postrun handler, an attribute has
    the value that was set last: "celery.task_name" is the name of the task;
    any other attribute has the value recorded for it from [task.request],
    or else the one recorded from the keyword arguments of the signal, or
    else "run" if it is "celery.action", or else the value it had before. *)
Theorem postrun_attribute_precedence kw t i sp act x0 s :
  kw_task kw = Some t → kw_task_id kw = Some i →
  span_dict s !! (task_ident t, i, false) = Some (sp, act) →
  spans s !! sp = Some x0 →
  ∃ x, spans (exec (postrun kw) s) !! sp = Some x
    ∧ ∀ key,
        attribute key x
        = if decide (key = "celery.task_name") then Some (VStr (name t))
          else match attribute_in key
                       (attribute_calls (context_attributes (request t))) with
               | Some v => Some v
               | None =>
                   match attribute_in key
                           (attribute_calls (context_attributes (kw_fields kw))) with
                   | Some v => Some v
                   | None => if decide (key = "celery.action")
                             then Some (VStr "run")
                             else attribute key x0
                   end
               end.
Proof.
  intros Ht Hi Hsp Hx0.
  rewrite (postrun_found context_attributes kw t i sp act) by done. simpl.
  set (x1 := add_calls (postrun_calls context_attributes kw t) x0).
  assert (H1 : ∀ key,
            attribute key x1
            = if decide (key = "celery.task_name") then Some (VStr (name t))
              else match attribute_in key
                           (attribute_calls (context_attributes (request t))) with
                   | Some v => Some v
                   | None =>
                       match attribute_in key
                               (attribute_calls
                                  (context_attributes (kw_fields kw))) with
                       | Some v => Some v
                       | None => if decide (key = "celery.action")
                                 then Some (VStr "run")
                                 else attribute key x0
                       end
                   end).
  { intros key. unfold x1, attribute, postrun_calls, _TASK_NAME_KEY. simpl.
    destruct (decide ("celery.task_name" = key)) as [<-|Hne].
    - by rewrite decide_True.
    - rewrite decide_False by done.
      rewrite <- !app_assoc, !attribute_in_app. simpl.
      unfold _TASK_TAG_KEY.
      destruct (decide ("celery.action" = key)) as [<-|Hne'].
      + by rewrite decide_True.
      + by rewrite (decide_False (P := key = "celery.action")). }
  destruct (decide (act_span act = sp)) as [->|Hne].
  - exists (add_calls (exit_calls act) x1).
    rewrite !list_lookup_alter_eq, Hx0. simpl. split; [done|].
    intros key. by rewrite attribute_add_exit_calls.
  - exists x1. rewrite list_lookup_alter_ne by done.
    by rewrite list_lookup_alter_eq, Hx0.
Qed.

(** X11: on the span of a publication, an attribute has the value recorded
    for it from the keyword arguments of the signal, which are recorded
    last; only when there is none does "celery.task_name" stay the name of
    the task, "messaging.message_id" the task id and "celery.action"
    "apply_async"; the span has no other attributes. *)
Theorem before_publish_attribute_precedence kw t i s :
  kw_sender kw = Some t → kw_message_id kw = Some i →
  ∃ x, spans (exec (before_publish kw) s) !! length (spans s) = Some x
    ∧ ∀ key,
        attribute key x
        = match attribute_in key
                  (attribute_calls (context_attributes (kw_fields kw))) with
          | Some v => Some v
          | None =>
              if decide (key = "celery.task_name") then Some (VStr (name t))
              else if decide (key = "messaging.message_id") then Some (VStr i)
              else if decide (key = "celery.action")
                   then Some (VStr "apply_async")
                   else None
          end.
Proof.
  intros Ht Hi.
  rewrite (before_publish_present context_attributes kw t i) by done.
  cbn [spans].
  destruct (started_calls
              (span_dict s !! (task_ident t, i, true)) (spans s)
              {| span_name := name t; span_kind := PRODUCER;
                 span_calls := before_publish_calls context_attributes kw t i |})
    as (cs & Hx & Hcs).
  eexists. split; [exact Hx|].
  intros key.
  assert (Hsame : ∀ y, attribute key (add_calls cs y) = attribute key y).
  { intros y. destruct Hcs as [->|[a ->]].
    - by rewrite add_calls_nil.
    - apply attribute_add_exit_calls. }
  rewrite Hsame.
  unfold attribute, before_publish_calls. simpl.
  rewrite attribute_in_app. simpl.
  unfold _TASK_NAME_KEY, _MESSAGE_ID_ATTRIBUTE_NAME, _TASK_TAG_KEY.
  destruct (attribute_in key _); [done|].
  repeat (case_decide; simplify_eq; try done).
Qed.

(** ** Tasks that declare no exceptions *)

(** X12: for a task that has no [throws], or whose [throws] is the empty
    tuple, every failure signal with exception info, for an attached span,
    sets the status UNKNOWN with [str(einfo)] as description. *)
Theorem failure_without_declared_exceptions kw t i sp act ex x s :
  throws t = None ∨ throws t = Some [] →
  kw_sender kw = Some t → kw_task_id kw = Some i →
  span_dict s !! (task_ident t, i, false) = Some (sp, act) →
  spans s !! sp = Some x →
  kw_einfo kw = Some ex →
  ∃ x', spans (exec (_trace_failure kw) s) !! sp = Some x'
    ∧ status x' = Some {| canonical_code := UNKNOWN;
                          description := Some (einfo_str ex) |}.
Proof.
  intros Hthrows Ht Hi Hsp Hx Hex.
  rewrite (failure_found kw t i sp act) by done. rewrite Hex.
  assert (Hno : expected_exception t ex = false).
  { unfold expected_exception. by destruct Hthrows as [->| ->]. }
  rewrite Hno. simpl. rewrite list_lookup_alter_eq, Hx. simpl. eauto.
Qed.

(** ** Connecting twice, and disconnecting what is not connected *)

Lemma others_connect sig h reg sig' :
  others (connect sig (Own h) reg sig') = others (reg sig').
Proof.
  unfold connect, others. destruct (decide (sig' = sig)) as [->|]; [|done].
  destruct (decide (Own h ∈ reg sig)); [done|].
  rewrite filter_app. simpl. rewrite filter_cons_False by done.
  by rewrite filter_nil, app_nil_r.
Qed.

Lemma others_remove_first h l : others (remove_first (Own h) l) = others l.
Proof.
  unfold others. induction l as [|r l IH]; [done|]. simpl.
  destruct (decide (r = Own h)) as [->|Hne].
  - by rewrite filter_cons_False.
  - rewrite !filter_cons. by rewrite IH.
Qed.

Lemma others_disconnect sig h reg sig' :
  others (disconnect sig (Own h) reg sig') = others (reg sig').
Proof.
  unfold disconnect. destruct (decide (sig' = sig)) as [->|]; [|done].
  apply others_remove_first.
Qed.

(** X13: whatever is connected, [_instrument] and [_uninstrument] leave the
    receivers of the application as they are, for every signal and in their
    order: they connect and disconnect handlers of the instrumentor only. *)
Theorem other_receivers_stay_connected reg sig :
  others (_instrument reg sig) = others (reg sig)
  ∧ others (_uninstrument reg sig) = others (reg sig).
Proof.
  split.
  - unfold _instrument. cbv zeta. by rewrite !others_connect.
  - unfold _uninstrument. cbv zeta. by rewrite !others_disconnect.
Qed.

Lemma connect_ext sig r (reg reg' : Registry) :
  (∀ x, reg x = reg' x) → ∀ x, connect sig r reg x = connect sig r reg' x.
Proof. intros Heq x. unfold connect. by rewrite !Heq. Qed.

Lemma connect_present sig r (reg : Registry) :
  r ∈ reg sig → ∀ x, connect sig r reg x = reg x.
Proof.
  intros Hin x. unfold connect. destruct (decide (x = sig)) as [->|]; [|done].
  by rewrite decide_True.
Qed.

Lemma connect_elem sig r (reg : Registry) : r ∈ connect sig r reg sig.
Proof.
  unfold connect. rewrite decide_True by done.
  destruct (decide (r ∈ reg sig)); [done|].
  apply elem_of_app. right. by left.
Qed.

Lemma connect_mono sig r (reg : Registry) sig' r' :
  r' ∈ reg sig' → r' ∈ connect sig r reg sig'.
Proof.
  intros Hin. unfold connect. destruct (decide (sig' = sig)) as [->|]; [|done].
  destruct (decide (r ∈ reg sig)); [done|]. apply elem_of_app. by left.
Qed.

Lemma connect_again sig r (reg reg' : Registry) :
  (∀ x, reg' x = reg x) → r ∈ reg sig → ∀ x, connect sig r reg' x = reg x.
Proof.
  intros Heq Hin x. rewrite (connect_ext sig r reg' reg Heq).
  by apply connect_present.
Qed.

(** X14: [_instrument] a second time changes nothing, whatever was connected
    before the first time: each handler is found connected to its signal and
    is not connected again. *)
Theorem instrument_twice_is_instrument_once reg sig :
  _instrument (_instrument reg) sig = _instrument reg sig.
Proof.
  set (R := _instrument reg).
  assert (H1 : Own trace_prerun ∈ R task_prerun).
  { unfold R, _instrument. cbv zeta. do 5 apply connect_mono.
    apply connect_elem. }
  assert (H2 : Own trace_postrun ∈ R task_postrun).
  { unfold R, _instrument. cbv zeta. do 4 apply connect_mono.
    apply connect_elem. }
  assert (H3 : Own trace_before_publish ∈ R before_task_publish).
  { unfold R, _instrument. cbv zeta. do 3 apply connect_mono.
    apply connect_elem. }
  assert (H4 : Own trace_after_publish ∈ R after_task_publish).
  { unfold R, _instrument. cbv zeta. do 2 apply connect_mono.
    apply connect_elem. }
  assert (H5 : Own trace_failure ∈ R task_failure).
  { unfold R, _instrument. cbv zeta. apply connect_mono, connect_elem. }
  assert (H6 : Own trace_retry ∈ R task_retry).
  { unfold R, _instrument. cbv zeta. apply connect_elem. }
  unfold _instrument at 1. cbv zeta.
  apply connect_again; [|done]. apply connect_again; [|done].
  apply connect_again; [|done]. apply connect_again; [|done].
  apply connect_again; [|done]. by apply connect_present.
Qed.

Lemma remove_first_absent r l : r ∉ l → remove_first r l = l.
Proof.
  induction l as [|y l IH]; [done|]. simpl. intros Hr.
  apply not_elem_of_cons in Hr as [Hne Hr].
  rewrite decide_False by done. by rewrite IH.
Qed.

Lemma disconnect_absent sig r (reg reg' : Registry) :
  (∀ x, reg' x = reg x) → r ∉ reg sig → ∀ x, disconnect sig r reg' x = reg x.
Proof.
  intros Heq Hr x. unfold disconnect.
  destruct (decide (x = sig)) as [->|]; [|done].
  rewrite Heq. by apply remove_first_absent.
Qed.

(** X15: when no handler of the instrumentor is connected, as before
    [_instrument] was ever called, [_uninstrument] changes nothing: to
    disconnect a handler that is not connected is harmless. *)
Theorem uninstrument_without_instrument reg :
  (∀ sig r, r ∈ reg sig → is_own r = false) →
  ∀ sig, _uninstrument reg sig = reg sig.
Proof.
  intros Hreg.
  assert (Hno : ∀ sig h, Own h ∉ reg sig).
  { intros sig h Hin. by apply Hreg in Hin. }
  intros sig. unfold _uninstrument. cbv zeta.
  repeat (apply disconnect_absent; [|apply Hno]). done.
Qed.

(** ** Signals about other tasks, and signals that come in pairs *)

Lemma transition_isolated s ko s' k j act :
  consistent s → transition s ko s' →
  span_dict s !! k = Some (j, act) → ko ≠ Some k →
  spans s' !! j = spans s !! j ∧ span_dict s' !! k = Some (j, act).
Proof.
  intros Hs Htr Hk Hko.
  destruct (attached_open s Hs _ _ _ Hk) as (_ & x & Hx & _).
  destruct Htr as [ko | ko msgs | nm b cs t i l Hcs | k' sp act' cs l Hlook Hcs
                  | t i sp act' c l Hlook Hc]; simpl; try done.
  - split.
    + rewrite lookup_finalized_ne.
      * apply lookup_app_l. by apply lookup_lt_Some in Hx.
      * intros sp0 a0 Hold.
        destruct (attached_open s Hs _ _ _ Hold) as (-> & _). simpl.
        intros ->. apply Hko. f_equal.
        by apply (attached_once s Hs _ _ j _ _ Hold Hk).
    + rewrite lookup_insert_ne; [done | congruence].
  - destruct (attached_open s Hs _ _ _ Hlook) as (-> & _). simpl.
    assert (sp ≠ j) as Hne.
    { intros ->. apply Hko. f_equal. by apply (attached_once s Hs _ _ j _ _ Hlook Hk). }
    split.
    + by rewrite !list_lookup_alter_ne.
    + rewrite lookup_delete_ne; [done | congruence].
  - assert (sp ≠ j) as Hne.
    { intros ->. apply Hko. f_equal. by apply (attached_once s Hs _ _ j _ _ Hlook Hk). }
    split; [|done]. by rewrite list_lookup_alter_ne.
Qed.

(** X16: whatever signals were handled, a signal about another task, task id
    or direction does not touch the span that is attached under a key:
    nothing is called on the span, and it stays attached.  The key of a
    signal is made of the task, the task id and the direction of its
    handler. *)
Theorem other_signals_leave_the_span history e k j act :
  span_dict (run history init) !! k = Some (j, act) →
  subject e ≠ Some k →
  spans (step e (run history init)) !! j = spans (run history init) !! j
  ∧ span_dict (step e (run history init)) !! k = Some (j, act).
Proof.
  intros Hk He.
  apply (transition_isolated _ (subject e)); [|apply step_transition|done..].
  apply consistent_run, consistent_init.
Qed.

(** X17: in whatever state, a prerun signal followed by the postrun signal
    of the same task and task id leaves no entry for them in the table, and
    the other entries as they were; so the table is as it was before when
    nothing was attached for them.  The same holds of a before-publish
    signal followed by the after-publish signal. *)
Theorem paired_signals_leave_the_table s :
  (∀ kw kw' t t' i,
     kw_task kw = Some t → kw_task_id kw = Some i →
     kw_task kw' = Some t' → task_ident t' = task_ident t →
     kw_task_id kw' = Some i →
     let s2 := exec (postrun kw') (exec (_trace_prerun kw) s) in
     span_dict s2 = delete (task_ident t, i, false) (span_dict s)
     ∧ (span_dict s !! (task_ident t, i, false) = None →
        span_dict s2 = span_dict s))
  ∧ (∀ kw kw' t t' i,
     kw_sender kw = Some t → kw_message_id kw = Some i →
     kw_sender kw' = Some t' → task_ident t' = task_ident t →
     kw_message_id kw' = Some i →
     let s2 := exec (_trace_after_publish kw') (exec (before_publish kw) s) in
     span_dict s2 = delete (task_ident t, i, true) (span_dict s)
     ∧ (span_dict s !! (task_ident t, i, true) = None →
        span_dict s2 = span_dict s)).
Proof.
  split.
  - intros kw kw' t t' i Ht Hi Ht' Hident Hi' s2.
    assert (Heq : span_dict s2 = delete (task_ident t, i, false) (span_dict s)).
    { unfold s2. rewrite (prerun_present kw t i) by done.
      erewrite (postrun_found context_attributes kw' t' i); [|done..|].
      - simpl. rewrite Hident. apply delete_insert_eq.
      - simpl. rewrite Hident. apply lookup_insert_eq. }
    split; [done|]. intros Hnone. rewrite Heq. by apply delete_id.
  - intros kw kw' t t' i Ht Hi Ht' Hident Hi' s2.
    assert (Heq : span_dict s2 = delete (task_ident t, i, true) (span_dict s)).
    { unfold s2.
      rewrite (before_publish_present context_attributes kw t i) by done.
      erewrite (after_publish_found kw' t' i); [|done..|].
      - simpl. rewrite Hident. apply delete_insert_eq.
      - simpl. rewrite Hident. apply lookup_insert_eq. }
    split; [done|]. intros Hnone. rewrite Heq. by apply delete_id.
Qed.

End Further.

(** * The further theorems at work on the examples *)

Import Sample.

Lemma reachable_states_are_consistent_witness :
  ∃ x, spans running !! 0 = Some x ∧ end_count x = 0 ∧ span_kind x = CONSUMER.
Proof.
  destruct (reachable_states_are_consistent prefixed
              [(trace_prerun, run_signal)]) as (Hopen & _ & _).
  destruct (Hopen (1, "7f3a", false) 0 run_activation eq_refl)
    as (_ & x & Hx & Hx0 & Hkind).
  by exists x.
Defined.

Lemma calls_on_a_span_are_ordered_witness :
  ∃ pre post,
    Forall (λ c, is_set_attribute c = true) pre
    ∧ Forall (λ c, is_plain c = true) post
    ∧ (span_calls finished_span = post ++ Activate :: pre
       ∨ span_calls finished_span = End :: Deactivate :: post ++ Activate :: pre).
Proof.
  apply (calls_on_a_span_are_ordered prefixed
           [(trace_prerun, run_signal); (trace_postrun, run_signal)]
           0 finished_span).
  vm_compute. reflexivity.
Defined.

Lemma finished_unattached : unattached finished 0.
Proof.
  intros k sp act Hk.
  assert (Heq : span_dict finished = ∅) by (vm_compute; reflexivity).
  rewrite Heq, lookup_empty in Hk. discriminate.
Qed.

Lemma handler_leaves_unattached_spans_witness :
  spans (call prefixed (trace_failure, failure_signal (Some value_error)) finished)
    !! 0
  = Some finished_span.
Proof.
  apply (handler_leaves_unattached_spans prefixed trace_failure
           (failure_signal (Some value_error)) finished 0 finished_span).
  - exact finished_unattached.
  - vm_compute. reflexivity.
Defined.

Lemma ended_span_is_left_alone_witness :
  spans (calls prefixed [(trace_failure, failure_signal (Some value_error));
                         (trace_retry, retry_signal);
                         (trace_postrun, run_signal)] finished) !! 0
  = Some finished_span.
Proof.
  apply (ended_span_is_left_alone prefixed
           [(trace_prerun, run_signal); (trace_postrun, run_signal)]
           [(trace_failure, failure_signal (Some value_error));
            (trace_retry, retry_signal);
            (trace_postrun, run_signal)] 0 finished_span).
  - vm_compute. reflexivity.
  - vm_compute. lia.
Defined.

Lemma second_start_ends_the_first_span_witness :
  let s1 := calls prefixed [(trace_prerun, run_signal)] init in
  let s2 := calls prefixed [(trace_prerun, run_signal);
                            (trace_prerun, run_signal)] init in
  ∃ x, spans s1 !! 0 = Some x ∧ end_count x = 0
    ∧ spans s2 !! 0 = Some (add_calls [End; Deactivate] x)
    ∧ span_dict s2 !! (1, "7f3a", false)
      = Some (1, {| act_span := 1; act_end_on_exit := true |})
    ∧ 0 < 1
    ∧ spans (calls prefixed [(trace_postrun, run_signal);
                             (trace_postrun, run_signal)] s2) !! 0
      = Some (add_calls [End; Deactivate] x).
Proof.
  apply (proj1 (second_start_ends_the_first_span prefixed [] []
                  [(trace_postrun, run_signal); (trace_postrun, run_signal)])
           run_signal run_signal add_task add_task "7f3a");
    try reflexivity.
  constructor.
Defined.

Lemma second_end_only_warns_witness :
  let s1 := exec (_trace_postrun prefixed run_signal) running in
  exec (_trace_postrun prefixed run_signal) s1
  = logged [LogWarning "no existing span found for task_id=%s" "7f3a";
            LogDebug "postrun signal task_id=%s" "7f3a"] s1.
Proof.
  apply (proj1 (second_end_only_warns prefixed running)
           run_signal run_signal add_task add_task "7f3a");
    reflexivity.
Defined.

Lemma failure_and_retry_after_postrun_do_nothing_witness :
  let s1 := exec (_trace_postrun prefixed run_signal) running in
  _trace_failure (failure_signal (Some value_error)) s1 = (Returned tt, s1)
  ∧ _trace_retry retry_signal s1 = (Returned tt, s1).
Proof.
  destruct (failure_and_retry_after_postrun_do_nothing prefixed run_signal
              add_task "7f3a" running eq_refl eq_refl) as [Hf Hr].
  split.
  - apply (Hf (failure_signal (Some value_error)) add_task); reflexivity.
  - apply (Hr retry_signal add_task (ReasonObject "Retry in 3s")); reflexivity.
Defined.

Lemma status_of_a_span_by_its_kind_witness :
  (span_kind finished_span = PRODUCER
   ∧ status_calls (span_calls finished_span) = []
   ∧ status finished_span
     = if decide (end_count finished_span = 0) then None
       else Some status_on_end)
  ∨ (span_kind finished_span = CONSUMER
     ∧ Forall (λ st, canonical_code st = UNKNOWN)
         (status_calls (span_calls finished_span))
     ∧ ∀ st, status finished_span = Some st →
         canonical_code st = UNKNOWN
         ∨ (st = status_on_end ∧ 1 ≤ end_count finished_span)).
Proof.
  apply (status_of_a_span_by_its_kind prefixed
           [(trace_prerun, run_signal); (trace_postrun, run_signal)] 0).
  vm_compute. reflexivity.
Defined.

Lemma postrun_attribute_precedence_witness :
  ∃ x, spans (exec (_trace_postrun prefixed run_signal) running) !! 0 = Some x
    ∧ attribute "celery.task_name" x = Some (VStr "tasks.add")
    ∧ attribute "celery.hostname" x = Some (VStr "worker1")
    ∧ attribute "celery.state" x = Some (VStr "SUCCESS")
    ∧ attribute "celery.action" x = Some (VStr "run").
Proof.
  destruct (postrun_attribute_precedence prefixed run_signal add_task "7f3a" 0
              run_activation run_span running eq_refl eq_refl eq_refl eq_refl)
    as (x & Hx & Hattr).
  exists x. split; [exact Hx|]. rewrite !Hattr. by vm_compute.
Defined.

Lemma before_publish_attribute_precedence_witness :
  ∃ x, spans (exec (_trace_before_publish prefixed publish_signal) running) !! 1
       = Some x
    ∧ attribute "celery.routing_key" x = Some (VStr "celery")
    ∧ attribute "messaging.message_id" x = Some (VStr "7f3a")
    ∧ attribute "celery.revoked.reason" x = None.
Proof.
  destruct (before_publish_attribute_precedence prefixed publish_signal
              add_task "7f3a" running eq_refl eq_refl) as (x & Hx & Hattr).
  exists x. split; [exact Hx|]. rewrite !Hattr. by vm_compute.
Defined.

Lemma failure_without_declared_exceptions_witness :
  ∃ x', spans (exec (_trace_failure mul_failure) mul_running) !! 0 = Some x'
    ∧ status x' = Some {| canonical_code := UNKNOWN;
                          description := Some (einfo_str value_error) |}.
Proof.
  apply (failure_without_declared_exceptions mul_failure mul "9c1e" 0
           {| act_span := 0; act_end_on_exit := true |} value_error mul_span
           mul_running); try (vm_compute; reflexivity).
  right. reflexivity.
Defined.

Lemma uninstrument_without_instrument_witness :
  _uninstrument application task_success = [Other 1]
  ∧ _uninstrument application task_prerun = [].
Proof.
  assert (Hall : ∀ sig, _uninstrument application sig = application sig);
    [|split; apply Hall].
  apply (uninstrument_without_instrument application).
  intros sig r Hin. destruct sig; simpl in Hin;
    try (by apply elem_of_nil in Hin).
  apply elem_of_cons in Hin as [->|Hin]; [reflexivity|].
  by apply elem_of_nil in Hin.
Defined.

Lemma other_signals_leave_the_span_witness :
  spans (call prefixed (trace_failure, mul_failure) running) !! 0
  = spans running !! 0
  ∧ span_dict (call prefixed (trace_failure, mul_failure) running)
      !! (1, "7f3a", false)
    = Some (0, run_activation).
Proof.
  apply (other_signals_leave_the_span prefixed [(trace_prerun, run_signal)]
           (trace_failure, mul_failure) (1, "7f3a", false) 0 run_activation).
  - vm_compute. reflexivity.
  - vm_compute. discriminate.
Defined.

Lemma paired_signals_leave_the_table_witness :
  let s2 := exec (_trace_postrun prefixed mul_run)
              (exec (_trace_prerun mul_run) running) in
  span_dict s2 = delete (2, "9c1e", false) (span_dict running)
  ∧ span_dict s2 = span_dict running.
Proof.
  destruct (proj1 (paired_signals_leave_the_table prefixed running)
              mul_run mul_run mul mul "9c1e"
              eq_refl eq_refl eq_refl eq_refl eq_refl) as [Hdel Hsame].
  split; [exact Hdel|]. apply Hsame. vm_compute. reflexivity.
Defined.
